(** * inbox-automation: the expense workflow of [src/index.ts]

    A shallow embedding of [ExpenseAutomationWorkflow.run] together with
    the D1 tables of [schema.sql], and the properties of the workflow
    that follow from the code.

    Strings are sequences of one-byte code units ([string]); JavaScript
    values that may be [undefined] are [option]s; a callback that may
    throw returns an [Outcome]; the workflow threads an explicit [World]
    (the D1 database, the clock, the log of step attempts). *)

From Stdlib Require Import String Ascii List ZArith QArith Bool Lia.
Import ListNotations.

Local Open Scope string_scope.
Local Open Scope list_scope.

(** ** JavaScript strings *)

Module Js.

(** [s.startsWith(p)]. *)
Fixpoint starts_with (p s : string) : bool :=
  match p, s with
  | EmptyString, _ => true
  | String _ _, EmptyString => false
  | String a p', String b s' => Ascii.eqb a b && starts_with p' s'
  end.

(** [s.includes(p)]. *)
Fixpoint includes (p s : string) : bool :=
  starts_with p s ||
  match s with
  | EmptyString => false
  | String _ s' => includes p s'
  end.

Fixpoint drop (n : nat) (s : string) : string :=
  match n, s with
  | O, _ => s
  | S _, EmptyString => EmptyString
  | S k, String _ s' => drop k s'
  end.

(** [s.replace(p, r)] for a string pattern [p]: only the first
    occurrence is substituted.  None of the replacement strings of the
    workflow contains a dollar sign, so the replacement is literal. *)
Fixpoint replace (p r s : string) : string :=
  if starts_with p s then r ++ drop (String.length p) s
  else match s with
       | EmptyString => EmptyString
       | String c s' => String c (replace p r s')
       end.

(** The scan of [replaceAll] for a non-empty pattern: [skip] counts the
    code units of the current match that are still to be dropped. *)
Fixpoint replaceAll_scan (p r : string) (skip : nat) (s : string) : string :=
  match s with
  | EmptyString => EmptyString
  | String c s' =>
      match skip with
      | S k => replaceAll_scan p r k s'
      | O => if starts_with p s
             then r ++ replaceAll_scan p r (String.length p - 1) s'
             else String c (replaceAll_scan p r O s')
      end
  end.

(** With the empty pattern the replacement goes before every code unit
    and at the end. *)
Fixpoint intersperse (r s : string) : string :=
  match s with
  | EmptyString => r
  | String c s' => r ++ String c (intersperse r s')
  end.

(** [s.replaceAll(p, r)] for a string pattern [p]. *)
Definition replaceAll (p r s : string) : string :=
  match p with
  | EmptyString => intersperse r s
  | String _ _ => replaceAll_scan p r O s
  end.

Fixpoint rev_string (acc s : string) : string :=
  match s with
  | EmptyString => acc
  | String c s' => rev_string (String c acc) s'
  end.

(** [s.split(sep)] for a separator of one code unit; [cur] is the
    current piece, reversed. *)
Fixpoint split_scan (sep : ascii) (cur : string) (s : string) : list string :=
  match s with
  | EmptyString => [rev_string EmptyString cur]
  | String c s' =>
      if Ascii.eqb c sep
      then rev_string EmptyString cur :: split_scan sep EmptyString s'
      else split_scan sep (String c cur) s'
  end.

Definition split (sep : ascii) (s : string) : list string :=
  split_scan sep EmptyString s.

(** [a.join(sep)]. *)
Fixpoint join (sep : string) (l : list string) : string :=
  match l with
  | [] => EmptyString
  | [x] => x
  | x :: rest => x ++ sep ++ join sep rest
  end.

(** A template literal prints a missing array element as [undefined]. *)
Definition template_piece (l : list string) (i : nat) : string :=
  nth i l "undefined".

Definition is_lower (c : ascii) : bool :=
  let n := nat_of_ascii c in (97 <=? n)%nat && (n <=? 122)%nat.

Definition is_upper (c : ascii) : bool :=
  let n := nat_of_ascii c in (65 <=? n)%nat && (n <=? 90)%nat.

Definition upper_char (c : ascii) : ascii :=
  if is_lower c then ascii_of_nat (nat_of_ascii c - 32) else c.

Definition lower_char (c : ascii) : ascii :=
  if is_upper c then ascii_of_nat (nat_of_ascii c + 32) else c.

(** [s.toUpperCase()] on one-byte code units. *)
Fixpoint toUpperCase (s : string) : string :=
  match s with
  | EmptyString => EmptyString
  | String c s' => String (upper_char c) (toUpperCase s')
  end.

Fixpoint toLowerCase (s : string) : string :=
  match s with
  | EmptyString => EmptyString
  | String c s' => String (lower_char c) (toLowerCase s')
  end.

(** Truthiness of a string that may be [undefined]. *)
Definition truthy (o : option string) : bool :=
  match o with
  | Some (String _ _) => true
  | _ => false
  end.

(** [a || b] on strings that may be [undefined]. *)
Definition or_else (a b : option string) : option string :=
  if truthy a then a else b.

End Js.

(** ** Regular expressions of the shape used by [ExpenseSchema] *)

Module Regex.

(** An atom of a pattern: [\d] or a literal character. *)
Inductive atom : Type :=
| Digit
| Lit (c : ascii).

(** Without the [u] flag [\d] is exactly [0-9]. *)
Definition is_digit (c : ascii) : bool :=
  let n := nat_of_ascii c in (48 <=? n)%nat && (n <=? 57)%nat.

Definition atom_matches (a : atom) (c : ascii) : bool :=
  match a with
  | Digit => is_digit c
  | Lit d => Ascii.eqb c d
  end.

(** [/^a1 a2 ... an$/.test(s)]: the whole input, atom by atom ([$]
    without the [m] flag matches at the end of the input only). *)
Fixpoint test (pat : list atom) (s : string) : bool :=
  match pat, s with
  | [], EmptyString => true
  | a :: pat', String c s' => atom_matches a c && test pat' s'
  | _, _ => false
  end.

(** [/^\d{2}-\d{2}-\d{4}$/] *)
Definition date_pattern : list atom :=
  [Digit; Digit; Lit "-"; Digit; Digit; Lit "-"; Digit; Digit; Digit; Digit].

End Regex.

(** ** Values, errors and outcomes *)

(** A JSON value, as the AI binding hands it to the workflow.  The
    properties of an object are listed with their keys. *)
#[warnings="-register-all"]
Inductive json : Type :=
| JNull
| JBool (b : bool)
| JNumber (q : Q)
| JString (s : string)
| JArray (items : list json)
| JObject (fields : list (string * json)).

(** [o[k]]: [None] is [undefined]. *)
Fixpoint get_property (k : string) (fields : list (string * json)) : option json :=
  match fields with
  | [] => None
  | (k', v) :: rest => if String.eqb k k' then Some v else get_property k rest
  end.

(** One segment of the path of a Zod issue. *)
Inductive PathSeg : Type :=
| Key (k : string)
| Index (i : nat).

Record ZodIssue : Type := mkIssue {
  issue_code : string;
  issue_path : list PathSeg;
  issue_message : string
}.

(** What a callback can throw.  [NonRetryableError] is the class of
    [cloudflare:workflows] that stops the retries of a step; [Error] is
    a plain [new Error(message)]. *)
Inductive JsError : Type :=
| ZodError (issues : list ZodIssue)
| D1Error (message : string)
| Error (message : string)
| ExternalError (message : string)
| NonRetryableError (message : string).

(** The result of a callback or of a promise: a value, or a throw. *)
Inductive Outcome (A : Type) : Type :=
| Ok (a : A)
| Threw (e : JsError).
Arguments Ok {A} a.
Arguments Threw {A} e.

(** External collaborators fail with a message of their own. *)
Definition External (A : Type) : Type := (string + A)%type.

Definition of_external {A} (r : External A) : Outcome A :=
  match r with
  | inl msg => Threw (ExternalError msg)
  | inr a => Ok a
  end.

(** ** Zod schemas *)

Module Zod.

(** The result of parsing one field. *)
Definition Parsed (A : Type) : Type := (list ZodIssue + A)%type.

Definition issues_of {A} (r : Parsed A) : list ZodIssue :=
  match r with
  | inl l => l
  | inr _ => []
  end.

(** The name Zod prints for the type of a value. *)
Definition parsed_type (v : option json) : string :=
  match v with
  | None => "undefined"
  | Some JNull => "null"
  | Some (JBool _) => "boolean"
  | Some (JNumber _) => "number"
  | Some (JString _) => "string"
  | Some (JArray _) => "array"
  | Some (JObject _) => "object"
  end.

Definition invalid_type (expected : string) (path : list PathSeg)
           (v : option json) : ZodIssue :=
  mkIssue "invalid_type" path
    (match v with
     | None => "Required"
     | Some _ => "Expected " ++ expected ++ ", received " ++ parsed_type v
     end).

(** [z.string()] *)
Definition string_ (path : list PathSeg) (v : option json) : Parsed string :=
  match v with
  | Some (JString s) => inr s
  | _ => inl [invalid_type "string" path v]
  end.

(** [z.number()] *)
Definition number_ (path : list PathSeg) (v : option json) : Parsed Q :=
  match v with
  | Some (JNumber q) => inr q
  | _ => inl [invalid_type "number" path v]
  end.

(** [z.string().regex(re, message)] *)
Definition string_regex (pat : list Regex.atom) (message : string)
           (path : list PathSeg) (v : option json) : Parsed string :=
  match string_ path v with
  | inl l => inl l
  | inr s => if Regex.test pat s then inr s
             else inl [mkIssue "invalid_string" path message]
  end.

(** [z.string().length(n).toUpperCase()]: the length is checked on the
    input, then the value is upper-cased. *)
Definition string_length_upper (n : nat) (path : list PathSeg)
           (v : option json) : Parsed string :=
  match string_ path v with
  | inl l => inl l
  | inr s =>
      if (String.length s =? n)%nat then inr (Js.toUpperCase s)
      else inl [mkIssue (if (n <? String.length s)%nat then "too_big" else "too_small")
                  path "String must contain exactly 3 character(s)"]
  end.

(** [z.string().optional()]: [undefined] passes and stays [undefined]. *)
Definition string_optional (path : list PathSeg) (v : option json)
  : Parsed (option string) :=
  match v with
  | None => inr None
  | _ => match string_ path v with
         | inl l => inl l
         | inr s => inr (Some s)
         end
  end.

End Zod.

(** The value [ExpenseSchema.parse] returns. *)
Record Expense : Type := mkExpense {
  vendor : string;
  expenseDate : string;
  amountValue : Q;
  currencyCode : string;
  category : string;
  description : option string
}.

(** [ExpenseSchema.parse(response)]: every key of the shape is parsed and
    the issues of all of them are collected; unknown keys are dropped. *)
Definition ExpenseSchema_parse (response : json) : Zod.Parsed Expense :=
  match response with
  | JObject o =>
      let v := Zod.string_ [Key "vendor"] (get_property "vendor" o) in
      let d := Zod.string_regex Regex.date_pattern "Date must be in DD-MM-YYYY format"
                 [Key "expenseDate"] (get_property "expenseDate" o) in
      let a := Zod.number_ [Key "amountValue"] (get_property "amountValue" o) in
      let c := Zod.string_length_upper 3 [Key "currencyCode"]
                 (get_property "currencyCode" o) in
      let g := Zod.string_ [Key "category"] (get_property "category" o) in
      let s := Zod.string_optional [Key "description"] (get_property "description" o) in
      match v, d, a, c, g, s with
      | inr v', inr d', inr a', inr c', inr g', inr s' =>
          inr (mkExpense v' d' a' c' g' s')
      | _, _, _, _, _, _ =>
          inl (Zod.issues_of v ++ Zod.issues_of d ++ Zod.issues_of a ++
               Zod.issues_of c ++ Zod.issues_of g ++ Zod.issues_of s)
      end
  | _ => inl [Zod.invalid_type "object" [] (Some response)]
  end.

Definition validCategories : list string :=
  ["Meals"; "Travel"; "Office Supplies"; "Software"; "Hardware"; "Training";
   "Telecom"; "Other"].

(** ** The parsed email *)

(** What postal-mime returns, restricted to the fields
    [ParsedEmailSchema] looks at; [None] is a field that is missing or
    not of the type the schema asks for. *)
Record PostalAttachment : Type := mkPostalAttachment {
  pm_filename : option string;
  pm_mimeType : option string;
  pm_contentDisposition : option string;
  pm_contentId : option string;
  pm_content : option (list Byte.byte)
}.

Record Address : Type := mkAddress {
  address : option string;
  name : option string
}.

Record PostalEmail : Type := mkPostalEmail {
  pm_messageId : option string;
  pm_subject : option string;
  pm_from : option Address;
  pm_text : option string;
  pm_html : option string;
  pm_attachments : option (list PostalAttachment)
}.

Record Attachment : Type := mkAttachment {
  filename : string;
  mimeType : string;
  contentDisposition : option string;
  contentId : option string;
  content : list Byte.byte
}.

Record ParsedEmail : Type := mkParsedEmail {
  messageId : string;
  subject : string;
  from : Address;
  text : option string;
  html : option string;
  attachments : list Attachment
}.

Definition required {A} (path : list PathSeg) (message : string) (v : option A)
  : Zod.Parsed A :=
  match v with
  | Some a => inr a
  | None => inl [mkIssue "invalid_type" path message]
  end.

(** One element of [attachments]. *)
Definition Attachment_parse (i : nat) (a : PostalAttachment) : Zod.Parsed Attachment :=
  let f := required [Key "attachments"; Index i; Key "filename"] "Required"
             (pm_filename a) in
  let m := required [Key "attachments"; Index i; Key "mimeType"] "Required"
             (pm_mimeType a) in
  let c := match pm_content a with
           | Some b => inr b
           | None => inl [mkIssue "custom" [Key "attachments"; Index i; Key "content"]
                            "Input not instance of ArrayBuffer"]
           end in
  match f, m, c with
  | inr f', inr m', inr c' =>
      inr (mkAttachment f' m' (pm_contentDisposition a) (pm_contentId a) c')
  | _, _, _ => inl (Zod.issues_of f ++ Zod.issues_of m ++ Zod.issues_of c)
  end.

Fixpoint Attachments_parse (i : nat) (l : list PostalAttachment)
  : Zod.Parsed (list Attachment) :=
  match l with
  | [] => inr []
  | a :: rest =>
      match Attachment_parse i a, Attachments_parse (S i) rest with
      | inr a', inr rest' => inr (a' :: rest')
      | ra, rrest => inl (Zod.issues_of ra ++ Zod.issues_of rrest)
      end
  end.

(** [ParsedEmailSchema.parse(parsed)]; [attachments] defaults to the
    empty array. *)
Definition ParsedEmailSchema_parse (p : PostalEmail) : Zod.Parsed ParsedEmail :=
  let m := required [Key "messageId"] "Required" (pm_messageId p) in
  let s := required [Key "subject"] "Required" (pm_subject p) in
  let f := required [Key "from"] "Required" (pm_from p) in
  let a := match pm_attachments p with
           | None => inr []
           | Some l => Attachments_parse 0 l
           end in
  match m, s, f, a with
  | inr m', inr s', inr f', inr a' =>
      inr (mkParsedEmail m' s' f' (pm_text p) (pm_html p) a')
  | _, _, _, _ =>
      inl (Zod.issues_of m ++ Zod.issues_of s ++ Zod.issues_of f ++ Zod.issues_of a)
  end.

(** ** The D1 database of [schema.sql] *)

Module ProcessedEmails.
Record row : Type := mkRow {
  id : Z;
  message_id : string;
  subject : option string;
  from_address : string;
  received_at : Z;
  processed_at : Z;
  status : string;
  is_reimbursable : Z
}.

(** [CHECK(status IN ('pending', 'processed', 'failed', 'skipped'))] *)
Definition status_allowed (s : string) : bool :=
  existsb (String.eqb s) ["pending"; "processed"; "failed"; "skipped"].
End ProcessedEmails.

Module Expenses.
Record row : Type := mkRow {
  id : Z;
  email_id : Z;
  amount : Q;
  currency : option string;
  description : option string;
  expense_date : string;
  category : option string;
  vendor : option string;
  is_reimbursable : Z;
  created_at : Z;
  updated_at : Z
}.

(** The generated column [status]. *)
Definition status (r : row) : string :=
  if (is_reimbursable r =? 0)%Z then "non_reimbursable" else "pending".
End Expenses.

Module Categories.
Record row : Type := mkRow {
  id : Z;
  name : string;
  description : option string;
  is_active : Z;
  created_at : Z
}.
End Categories.

Record D1 : Type := mkD1 {
  processed_emails : list ProcessedEmails.row;
  expenses : list Expenses.row;
  categories : list Categories.row;
  (** the AUTOINCREMENT counters of [sqlite_sequence] *)
  seq_processed_emails : Z;
  seq_expenses : Z
}.

Record D1Meta : Type := mkMeta {
  last_row_id : Z;
  changes : Z
}.

Record D1Response : Type := mkResponse {
  success : bool;
  meta : option D1Meta
}.

(** The rowid an AUTOINCREMENT table gives to a new row: one more than
    the largest rowid the table ever held. *)
Definition next_rowid (seq : Z) (ids : list Z) : Z :=
  fold_right Z.max seq ids + 1.

(** [name] is [COLLATE NOCASE]: ASCII letters compare without case. *)
Definition nocase_eqb (a b : string) : bool :=
  String.eqb (Js.toLowerCase a) (Js.toLowerCase b).

Definition has_message_id (m : string) (db : D1) : bool :=
  existsb (fun r => String.eqb (ProcessedEmails.message_id r) m) (processed_emails db).

Definition has_email_id (i : Z) (db : D1) : bool :=
  existsb (fun r => (ProcessedEmails.id r =? i)%Z) (processed_emails db).

Definition has_category (c : string) (db : D1) : bool :=
  existsb (fun r => nocase_eqb (Categories.name r) c) (categories db).

(** [INSERT INTO processed_emails (message_id, subject, from_address,
    is_reimbursable) VALUES (?, ?, ?, ?)].  D1 refuses to bind
    [undefined]; [message_id] is UNIQUE; the other columns take their
    defaults. *)
Definition insert_processed_email (now : Z) (message_id subject : string)
           (from_address : option string) (is_reimbursable : bool) (db : D1)
  : Outcome D1Response * D1 :=
  match from_address with
  | None => (Threw (D1Error "D1_TYPE_ERROR: Type 'undefined' not supported"), db)
  | Some fa =>
      if has_message_id message_id db
      then (Threw (D1Error "UNIQUE constraint failed: processed_emails.message_id"), db)
      else
        let i := next_rowid (seq_processed_emails db)
                   (map ProcessedEmails.id (processed_emails db)) in
        let r := ProcessedEmails.mkRow i message_id (Some subject) fa now now
                   "pending" (if is_reimbursable then 1 else 0)%Z in
        (Ok (mkResponse true (Some (mkMeta i 1))),
         mkD1 (processed_emails db ++ [r]) (expenses db) (categories db)
              i (seq_expenses db))
  end.

(** [INSERT INTO expenses (email_id, amount, currency, description,
    expense_date, category, vendor) VALUES (?, ?, ?, ?, ?, ?, ?)].
    [is_reimbursable] is not among the columns and takes its default 0.
    The CHECKs and the two foreign keys of the table are enforced. *)
Definition insert_expense (now : Z) (email_id : Z) (amount : Q) (currency : string)
           (description : option string) (expense_date category vendor : string)
           (db : D1) : Outcome D1Response * D1 :=
  match description with
  | None => (Threw (D1Error "D1_TYPE_ERROR: Type 'undefined' not supported"), db)
  | Some d =>
      if negb (Qle_bool amount 0) && (String.length currency =? 3)%nat
      then
        if has_email_id email_id db && has_category category db
        then
          let i := next_rowid (seq_expenses db) (map Expenses.id (expenses db)) in
          let r := Expenses.mkRow i email_id amount (Some currency) (Some d)
                     expense_date (Some category) (Some vendor) 0 now now in
          (Ok (mkResponse true (Some (mkMeta i 1))),
           mkD1 (processed_emails db) (expenses db ++ [r]) (categories db)
                (seq_processed_emails db) i)
        else (Threw (D1Error "FOREIGN KEY constraint failed"), db)
      else (Threw (D1Error "CHECK constraint failed"), db)
  end.

Definition set_status (now : Z) (status : string) (id : Z) (r : ProcessedEmails.row)
  : ProcessedEmails.row :=
  if (ProcessedEmails.id r =? id)%Z
  then ProcessedEmails.mkRow (ProcessedEmails.id r) (ProcessedEmails.message_id r)
         (ProcessedEmails.subject r) (ProcessedEmails.from_address r)
         (ProcessedEmails.received_at r) now status (ProcessedEmails.is_reimbursable r)
  else r.

(** [UPDATE processed_emails SET status = ?, processed_at =
    CURRENT_TIMESTAMP WHERE id = ?] *)
Definition update_processed_email_status (now : Z) (status : string) (id : Z) (db : D1)
  : Outcome D1Response * D1 :=
  if ProcessedEmails.status_allowed status
  then
    let n := List.length (filter (fun r => (ProcessedEmails.id r =? id)%Z)
                            (processed_emails db)) in
    (Ok (mkResponse true (Some (mkMeta 0 (Z.of_nat n)))),
     mkD1 (map (set_status now status id) (processed_emails db)) (expenses db)
          (categories db) (seq_processed_emails db) (seq_expenses db))
  else (Threw (D1Error "CHECK constraint failed: status"), db).

(** The rows [schema.sql] seeds [categories] with. *)
Definition seeded_categories : list Categories.row :=
  [ Categories.mkRow 1 "Meals" (Some "Business meals and entertainment") 1 0;
    Categories.mkRow 2 "Travel" (Some "Airfare, hotels, and transportation") 1 0;
    Categories.mkRow 3 "Office Supplies" (Some "Office equipment and supplies") 1 0;
    Categories.mkRow 4 "Software" (Some "Software subscriptions and licenses") 1 0;
    Categories.mkRow 5 "Hardware" (Some "Computers and other hardware") 1 0;
    Categories.mkRow 6 "Training" (Some "Courses and educational materials") 1 0;
    Categories.mkRow 7 "Telecom" (Some "Phone and internet services") 1 0;
    Categories.mkRow 8 "Other" (Some "Miscellaneous expenses") 1 0 ]%Z.

(** The database right after [schema.sql] ran. *)
Definition fresh_db : D1 := mkD1 [] [] seeded_categories 0 0.

(** ** The environment and the world *)

(** One property of the JSON schema sent to the model. *)
Record SchemaProperty : Type := mkProperty {
  prop_name : string;
  prop_type : string;
  prop_enum : option (list string);
  prop_description : string
}.

Record AiRequest : Type := mkRequest {
  model : string;
  prompt : string;
  schema_properties : list SchemaProperty;
  schema_required : list string
}.

(** [this.env] without the database, which is part of the [World].  The
    three libraries are functions of their input; the model may answer
    differently each time it is called, so it also sees the number of
    calls made before. *)
Record Env : Type := mkEnv {
  YOUR_NAME : string;
  YOUR_EMAIL : string;
  YOUR_ADDRESS : string;
  YOUR_POSTAL_CODE : string;
  PostalMime_parse : list Byte.byte -> External PostalEmail;
  unpdf_extractText : list Byte.byte -> External string;
  AI_run : nat -> AiRequest -> External json
}.

Record World : Type := mkWorld {
  DB : D1;
  clock : Z;
  ai_calls : nat;
  (** the name of the step of every attempt made so far, oldest first *)
  attempts : list string
}.

Definition with_DB (w : World) (db : D1) : World :=
  mkWorld db (clock w) (ai_calls w) (attempts w).

(** [stmt.bind(...).run()] against the database of the world. *)
Definition run_statement {A} (stmt : D1 -> Outcome A * D1) (w : World)
  : Outcome A * World :=
  let (r, db) := stmt (DB w) in (r, with_DB w db).

(** ** Workflow steps *)

Record WorkflowStepConfig : Type := mkConfig {
  retries_limit : nat;
  retries_delay : string;
  timeout : string
}.

Definition defaultConfig : WorkflowStepConfig :=
  mkConfig 1 "0.5 seconds" "10 minutes".

Definition Callback (A : Type) : Type := World -> Outcome A * World.

Definition log_attempt (step : string) (w : World) : World :=
  mkWorld (DB w) (clock w) (ai_calls w) (attempts w ++ [step]).

(** The attempts of one step: the callback runs, and runs again after a
    throw while retries are left, unless the throw is a
    [NonRetryableError]. *)
Fixpoint attempt (A : Type) (step : string) (retries_left : nat) (cb : Callback A)
         (w : World) : Outcome A * World :=
  match cb (log_attempt step w) with
  | (Ok a, w') => (Ok a, w')
  | (Threw (NonRetryableError m), w') => (Threw (NonRetryableError m), w')
  | (Threw e, w') =>
      match retries_left with
      | O => (Threw e, w')
      | S k => attempt A step k cb w'
      end
  end.
Arguments attempt {A} step retries_left cb w.

(** [step.do(name, config, callback)] *)
Definition step_do {A} (step : string) (config : WorkflowStepConfig)
           (cb : Callback A) : Callback A :=
  attempt step (retries_limit config) cb.

(** How often a step was attempted. *)
Definition attempts_of (step : string) (w : World) : nat :=
  List.length (filter (String.eqb step) (attempts w)).

(** ** The callbacks of the six steps *)

Record InitialEmailRecord : Type := mkInitial {
  emailRecordId : option Z;
  initial_success : bool
}.

Record ExtractedContent : Type := mkContent {
  contentForAi : string;
  type : string
}.

Record ExpenseInsertResult : Type := mkInsertResult {
  insert_success : bool;
  insert_last_row_id : option Z;
  insert_changes : option Z
}.

Record FinalizeResult : Type := mkFinalize {
  finalize_success : bool;
  finalize_error : option string;
  finalize_changes : option Z
}.

(** [!id] for an id that may be [undefined]. *)
Definition missing (id : option Z) : bool :=
  match id with
  | None => true
  | Some i => (i =? 0)%Z
  end.

(** Step 1, [parse email]. *)
Definition parse_email (env : Env) (email : list Byte.byte) : Callback ParsedEmail :=
  fun w =>
    (match of_external (PostalMime_parse env email) with
     | Threw e => Threw e
     | Ok parsed =>
         match ParsedEmailSchema_parse parsed with
         | inl issues => Threw (ZodError issues)
         | inr e => Ok e
         end
     end, w).

(** Step 2, [recordInitialEmailProcessing]. *)
Definition recordInitialEmailProcessing (parsedEmailObject : ParsedEmail)
  : Callback InitialEmailRecord :=
  fun w =>
    match run_statement
            (insert_processed_email (clock w) (messageId parsedEmailObject)
               (subject parsedEmailObject) (address (from parsedEmailObject)) false) w
    with
    | (Threw e, w') => (Threw e, w')
    | (Ok dbResponse, w') =>
        (Ok (mkInitial (option_map last_row_id (meta dbResponse)) (success dbResponse)),
         w')
    end.

(** The chain of [replace] calls applied to the text of a PDF. *)
Definition redact_replace (env : Env) (s : string) : string :=
  Js.replace (YOUR_POSTAL_CODE env) "Payee Postal Code"
    (Js.replace (YOUR_ADDRESS env) "Payee Address"
       (Js.replace (YOUR_EMAIL env) "Payee Email"
          (Js.replace (YOUR_NAME env) "Payee Name" s))).

(** The chain of [replaceAll] calls applied to a body. *)
Definition redact_replaceAll (env : Env) (s : string) : string :=
  Js.replaceAll (YOUR_POSTAL_CODE env) "Payee Postal Code"
    (Js.replaceAll (YOUR_ADDRESS env) "Payee Address"
       (Js.replaceAll (YOUR_EMAIL env) "Payee Email"
          (Js.replaceAll (YOUR_NAME env) "Payee Name" s))).

(** The [for] loop over the attachments: the first PDF sets
    [contentForAi] and breaks; without a PDF it stays empty. *)
Fixpoint scan_attachments (env : Env) (l : list Attachment) : Outcome string :=
  match l with
  | [] => Ok ""
  | attachment :: rest =>
      if String.eqb (mimeType attachment) "application/pdf"
      then match of_external (unpdf_extractText env (content attachment)) with
           | Threw e => Threw e
           | Ok pdf_text => Ok (redact_replace env pdf_text)
           end
      else scan_attachments env rest
  end.

(** Step 3, [extract text for AI]. *)
Definition extract_text_for_AI (env : Env) (emailData : ParsedEmail)
  : Callback ExtractedContent :=
  fun w =>
    (if (0 <? List.length (attachments emailData))%nat
     then match scan_attachments env (attachments emailData) with
          | Threw e => Threw e
          | Ok c => Ok (mkContent c "attachment")
          end
     else if Js.truthy (text emailData) || Js.truthy (html emailData)
     then
       let c := Js.or_else
                  (Js.or_else (option_map (redact_replaceAll env) (text emailData))
                     (option_map (redact_replaceAll env) (html emailData)))
                  (Some "") in
       Ok (mkContent (match c with Some s => s | None => "" end) "body")
     else Ok (mkContent "" "none"), w).

(** The double quote and the line feed of the prompt. *)
Definition dq : string := String "034"%char EmptyString.
Definition nl : string := String "010"%char EmptyString.

Definition quoted (s : string) : string := dq ++ s ++ dq.

Definition lines (l : list string) : string := Js.join nl l.

(** The template literal of the prompt. *)
Definition build_prompt (contentForAi : string) : string :=
  lines
    [ "You are a personal assistant. You help me with logging my expenses. You receive the extracted textual data from an email/attachment.";
      "Based on this data, provide the following output in JSON format:";
      "- Vendor: Company Name and/or the service to pay for.";
      "- Expense Date: Date of invoice or expense (DD-MM-YYYY).";
      "- Amount Value: The final numeric amount to be paid.";
      "- Currency Code: The 3-letter currency code (e.g., USD, EUR, CAD).";
      ("- Category: Classify the expense into one of the following categories: "
        ++ Js.join ", " validCategories ++ ". If unsure, use 'Other'.")%string;
      ("- Description: A brief description of the expense (e.g., "
        ++ quoted "Lunch with client" ++ ", " ++ quoted "Software subscription" ++ ").")%string;
      "";
      ("Here's the content: " ++ contentForAi)%string;
      "";
      "The output should be a single JSON object matching this schema:";
      "{";
      ("  " ++ quoted "vendor" ++ ": " ++ quoted "string" ++ ",")%string;
      ("  " ++ quoted "expenseDate" ++ ": " ++ quoted "string (DD-MM-YYYY)" ++ ",")%string;
      ("  " ++ quoted "amountValue" ++ ": number,")%string;
      ("  " ++ quoted "currencyCode" ++ ": " ++ quoted "string (3-letter code)" ++ ",")%string;
      ("  " ++ quoted "category" ++ ": " ++ quoted "string (from provided list)" ++ ",")%string;
      ("  " ++ quoted "description" ++ ": "
        ++ quoted "string (optional, default to empty string if not found)")%string;
      "}";
      "Only return the JSON object. Ensure description is an empty string if not applicable, rather than null or undefined." ].

(** The argument of [this.env.AI.run]. *)
Definition build_request (contentForAi : string) : AiRequest :=
  mkRequest "@cf/meta/llama-3.1-8b-instruct-fast" (build_prompt contentForAi)
    [ mkProperty "vendor" "string" None "Company Name or service provider.";
      mkProperty "expenseDate" "string" None
        "Date of invoice/expense in DD-MM-YYYY format.";
      mkProperty "amountValue" "number" None "The numeric final amount to be paid.";
      mkProperty "currencyCode" "string" None
        "The 3-letter currency code (e.g., USD, EUR).";
      mkProperty "category" "string" (Some validCategories)
        ("Expense category. Must be one of: " ++ Js.join ", " validCategories ++ ".")%string;
      mkProperty "description" "string" None "A brief description of the expense." ]
    ["vendor"; "expenseDate"; "amountValue"; "currencyCode"; "category"; "description"].

(** Step 4, [send to AI for expense parsing].  [parsedContent] is the
    promise of step 3: awaiting it throws what step 3 ended with.  An
    empty content is only logged; the model is called all the same. *)
Definition send_to_AI (env : Env) (parsedContent : Outcome ExtractedContent)
  : Callback Expense :=
  fun w =>
    match parsedContent with
    | Threw e => (Threw e, w)
    | Ok contentToProcess =>
        let w' := mkWorld (DB w) (clock w) (S (ai_calls w)) (attempts w) in
        match of_external
                (AI_run env (ai_calls w) (build_request (contentForAi contentToProcess)))
        with
        | Threw e => (Threw e, w')
        | Ok response =>
            match ExpenseSchema_parse response with
            | inl issues => (Threw (ZodError issues), w')
            | inr parsedAiData => (Ok parsedAiData, w')
            end
        end
    end.

(** [const [day, month, year] = expenseDate.split('-')] and the template
    literal that follows. *)
Definition formattedDate (expenseDate : string) : string :=
  let parts := Js.split "-" expenseDate in
  let day := Js.template_piece parts 0 in
  let month := Js.template_piece parts 1 in
  let year := Js.template_piece parts 2 in
  year ++ "-" ++ month ++ "-" ++ day.

(** Step 5, [insertExpenseRecord].  [aiParsedExpense] is the promise of
    step 4 and is awaited before the id is looked at. *)
Definition insertExpenseRecord (aiParsedExpense : Outcome Expense)
           (emailDbRecord : InitialEmailRecord) : Callback ExpenseInsertResult :=
  fun w =>
    match aiParsedExpense with
    | Threw e => (Threw e, w)
    | Ok aiData =>
        match emailRecordId emailDbRecord with
        | Some id =>
            if missing (Some id)
            then (Threw (Error "Failed to get emailRecordId for expense insertion."), w)
            else
              match run_statement
                      (insert_expense (clock w) id (amountValue aiData)
                         (currencyCode aiData) (description aiData)
                         (formattedDate (expenseDate aiData)) (category aiData)
                         (vendor aiData)) w
              with
              | (Threw e, w') => (Threw e, w')
              | (Ok dbResponse, w') =>
                  (Ok (mkInsertResult (success dbResponse)
                         (option_map last_row_id (meta dbResponse))
                         (option_map changes (meta dbResponse))), w')
              end
        | None => (Threw (Error "Failed to get emailRecordId for expense insertion."), w)
        end
    end.

(** Step 6, [finalizeEmailProcessingStatus]. *)
Definition finalizeEmailProcessingStatus (emailDbRecord : InitialEmailRecord)
  : Callback FinalizeResult :=
  fun w =>
    match emailRecordId emailDbRecord with
    | Some id =>
        if missing (Some id)
        then (Ok (mkFinalize false (Some "Missing emailRecordId") None), w)
        else
          match run_statement
                  (update_processed_email_status (clock w) "processed" id) w
          with
          | (Threw e, w') => (Threw e, w')
          | (Ok dbResponse, w') =>
              (Ok (mkFinalize (success dbResponse) None
                     (option_map changes (meta dbResponse))), w')
          end
    | None => (Ok (mkFinalize false (Some "Missing emailRecordId") None), w)
    end.

(** ** The workflow *)

(** How an instance of the workflow ends: [run] returns, or an awaited
    step rejects and the instance fails with its error. *)
Inductive RunResult : Type :=
| Completed
| Errored (step : string) (e : JsError).

(** The last statements of [run]: step 6 and [await finalizeStatus]. *)
Definition finalize_and_finish (initialEmailRecord : InitialEmailRecord) (w : World)
  : RunResult * World :=
  match step_do "finalizeEmailProcessingStatus" defaultConfig
          (finalizeEmailProcessingStatus initialEmailRecord) w
  with
  | (Threw e, w') => (Errored "finalizeEmailProcessingStatus" e, w')
  | (Ok _, w') => (Completed, w')
  end.

(** Step 5, awaited, and what follows it. *)
Definition insert_and_finish (aiParsedExpense : Outcome Expense)
           (initialEmailRecord : InitialEmailRecord) (w : World) : RunResult * World :=
  match step_do "insertExpenseRecord" defaultConfig
          (insertExpenseRecord aiParsedExpense initialEmailRecord) w
  with
  | (Threw e, w') => (Errored "insertExpenseRecord" e, w')
  | (Ok _, w') => finalize_and_finish initialEmailRecord w'
  end.

(** [run] from step 3 on.  Steps 3 and 4 are not awaited by [run]: their
    promises are awaited inside the callbacks of steps 4 and 5. *)
Definition run_after_record (env : Env) (parsedEmailObject : ParsedEmail)
           (initialEmailRecord : InitialEmailRecord) (w : World) : RunResult * World :=
  let (parsedContent, w3) :=
    step_do "extract text for AI" defaultConfig
      (extract_text_for_AI env parsedEmailObject) w in
  let (aiParsedExpense, w4) :=
    step_do "send to AI for expense parsing" defaultConfig
      (send_to_AI env parsedContent) w3 in
  insert_and_finish aiParsedExpense initialEmailRecord w4.

(** [ExpenseAutomationWorkflow.run] on the raw email of the event. *)
Definition run (env : Env) (email : list Byte.byte) (w : World) : RunResult * World :=
  match step_do "parse email" defaultConfig (parse_email env email) w with
  | (Threw e, w1) => (Errored "parse email" e, w1)
  | (Ok parsedEmailObject, w1) =>
      match step_do "recordInitialEmailProcessing" defaultConfig
              (recordInitialEmailProcessing parsedEmailObject) w1
      with
      | (Threw e, w2) => (Errored "recordInitialEmailProcessing" e, w2)
      | (Ok initialEmailRecord, w2) =>
          run_after_record env parsedEmailObject initialEmailRecord w2
      end
  end.

(** ** Vocabulary of the statements, and sample inputs *)

(** Modelled from the spec: the reading of a stored date back into the
    format of the model, YYYY-MM-DD to DD-MM-YYYY.  The workflow only has
    the direction of [formattedDate]; this is its mirror image, written
    the same way. *)
Definition displayDate (stored : string) : string :=
  let parts := Js.split "-" stored in
  let year := Js.template_piece parts 0 in
  let month := Js.template_piece parts 1 in
  let day := Js.template_piece parts 2 in
  day ++ "-" ++ month ++ "-" ++ year.

(** [/^\d{4}-\d{2}-\d{2}$/] *)
Definition stored_date_pattern : list Regex.atom :=
  [Regex.Digit; Regex.Digit; Regex.Digit; Regex.Digit; Regex.Lit "-";
   Regex.Digit; Regex.Digit; Regex.Lit "-"; Regex.Digit; Regex.Digit].

(** [o[k] = v] *)
Fixpoint set_property (k : string) (v : json) (fields : list (string * json))
  : list (string * json) :=
  match fields with
  | [] => [(k, v)]
  | (k', v') :: rest =>
      if String.eqb k k' then (k, v) :: rest else (k', v') :: set_property k v rest
  end.

(** What a raw answer must look like to pass, and what comes out. *)
Definition accepted (o : list (string * json)) (e : Expense) : Prop :=
  get_property "vendor" o = Some (JString (vendor e)) /\
  get_property "expenseDate" o = Some (JString (expenseDate e)) /\
  Regex.test Regex.date_pattern (expenseDate e) = true /\
  get_property "amountValue" o = Some (JNumber (amountValue e)) /\
  (exists c, get_property "currencyCode" o = Some (JString c) /\
             String.length c = 3%nat /\ currencyCode e = Js.toUpperCase c) /\
  get_property "category" o = Some (JString (category e)) /\
  match get_property "description" o with
  | None => description e = None
  | Some (JString s) => description e = Some s
  | Some _ => False
  end.

Definition with_category (e : Expense) (g : string) : Expense :=
  mkExpense (vendor e) (expenseDate e) (amountValue e) (currencyCode e) g
    (description e).

(** The enum of a property of the request. *)
Definition enum_of (k : string) (r : AiRequest) : option (list string) :=
  match find (fun p => String.eqb (prop_name p) k) (schema_properties r) with
  | Some p => prop_enum p
  | None => None
  end.

(** An answer of the model with a category outside the list and without
    a description. *)
Definition answer_gifts : list (string * json) :=
  [ ("vendor", JString "Acme");
    ("expenseDate", JString "12-03-2024");
    ("amountValue", JNumber (42 # 1)%Q);
    ("currencyCode", JString "usd");
    ("category", JString "Gifts") ].

Definition expense_gifts : Expense :=
  mkExpense "Acme" "12-03-2024" (42 # 1)%Q "USD" "Gifts" None.

Definition is_pdf (a : Attachment) : bool :=
  String.eqb (mimeType a) "application/pdf".

(** An answer of the model that satisfies the schema and the tables. *)
Definition answer_meals : list (string * json) :=
  [ ("vendor", JString "Acme");
    ("expenseDate", JString "12-03-2024");
    ("amountValue", JNumber (42 # 1)%Q);
    ("currencyCode", JString "usd");
    ("category", JString "Meals");
    ("description", JString "") ].

Definition env_bob : Env :=
  mkEnv "Bob" "bob@example.com" "1 Main St" "12345"
    (fun _ => inr (mkPostalEmail (Some "<m1@example.com>") (Some "Receipt")
                     (Some (mkAddress (Some "shop@example.com") None))
                     (Some "Invoice from Acme $42 USD") None None))
    (fun _ => inr "Bob paid; signed Bob")
    (fun _ _ => inr (JObject answer_meals)).

Definition receipt_pdf : Attachment :=
  mkAttachment "receipt.pdf" "application/pdf" None None [].

Definition logo_png : Attachment :=
  mkAttachment "logo.png" "image/png" None None [].

Definition email_with (body : option string) (l : list Attachment) : ParsedEmail :=
  mkParsedEmail "<m1@example.com>" "Receipt"
    (mkAddress (Some "shop@example.com") None) body None l.

Definition missing_id_error : JsError :=
  Error "Failed to get emailRecordId for expense insertion.".

Definition pending_row : ProcessedEmails.row :=
  ProcessedEmails.mkRow 1 "<m1@example.com>" (Some "Receipt") "shop@example.com"
    5 5 "pending" 0.

Definition world_with_pending : World :=
  mkWorld (mkD1 [pending_row] [] seeded_categories 1 0) 9 0 [].

(** Two worlds with the same database and the same time. *)
Definition same_store (w0 w : World) : Prop :=
  DB w0 = DB w /\ clock w0 = clock w.

(** A callback whose failed attempts leave no trace in the database. *)
Definition throws_keep_store {A} (cb : Callback A) : Prop :=
  forall w e w', cb w = (Threw e, w') -> same_store w' w.

(** A callback that never writes. *)
Definition keeps_store {A} (cb : Callback A) : Prop :=
  forall w r w', cb w = (r, w') -> same_store w' w.

(** The row step 2 writes. *)
Definition pending_entry (id now : Z) (email : ParsedEmail) (from_address : string)
  : ProcessedEmails.row :=
  ProcessedEmails.mkRow id (messageId email) (Some (subject email)) from_address
    now now "pending" 0.

(** A change to a ledger row that leaves its identity alone. *)
Definition keeps_identity (f : ProcessedEmails.row -> ProcessedEmails.row) : Prop :=
  forall e,
    ProcessedEmails.id (f e) = ProcessedEmails.id e /\
    ProcessedEmails.message_id (f e) = ProcessedEmails.message_id e /\
    ProcessedEmails.is_reimbursable (f e) = ProcessedEmails.is_reimbursable e.

(** What steps 3 to 6 can do to the database: at most one expense row
    more, not reimbursable, and a change of status of ledger rows. *)
Definition tail_effect (db db' : D1) : Prop :=
  exists f newx,
    keeps_identity f /\
    processed_emails db' = map f (processed_emails db) /\
    expenses db' = expenses db ++ newx /\
    (List.length newx <= 1)%nat /\
    Forall (fun x => Expenses.is_reimbursable x = 0%Z /\
                     has_email_id (Expenses.email_id x) db = true) newx /\
    categories db' = categories db.

(** A raw email that postal-mime parses and the schema accepts. *)
Definition parses_to (env : Env) (email : list Byte.byte) (e : ParsedEmail) : Prop :=
  exists p, PostalMime_parse env email = inr p /\ ParsedEmailSchema_parse p = inr e.

Definition after_record (w : World) (id : Z) (e : ParsedEmail) (fa : string) : World :=
  mkWorld
    (mkD1 (processed_emails (DB w) ++ [pending_entry id (clock w) e fa])
       (expenses (DB w)) (categories (DB w)) id (seq_expenses (DB w)))
    (clock w) (ai_calls w) (attempts w ++ ["recordInitialEmailProcessing"]).

Definition unique_violation : JsError :=
  D1Error "UNIQUE constraint failed: processed_emails.message_id".

(** The ledger rows of a message id. *)
Definition ledger_entries (m : string) (db : D1) : list ProcessedEmails.row :=
  filter (fun r => String.eqb (ProcessedEmails.message_id r) m) (processed_emails db).

Definition world0 : World := mkWorld fresh_db 100 0 [].

Definition email_bob : ParsedEmail :=
  email_with (Some "Invoice from Acme $42 USD") [].

Definition currencyCode_required : ZodIssue :=
  mkIssue "invalid_type" [Key "currencyCode"] "Required".


Definition answer_without_currency : list (string * json) :=
  [ ("vendor", JString "Acme");
    ("expenseDate", JString "12-03-2024");
    ("amountValue", JNumber (42 # 1)%Q);
    ("category", JString "Meals");
    ("description", JString "") ].

Definition env_without_currency : Env :=
  mkEnv (YOUR_NAME env_bob) (YOUR_EMAIL env_bob) (YOUR_ADDRESS env_bob)
    (YOUR_POSTAL_CODE env_bob) (PostalMime_parse env_bob)
    (unpdf_extractText env_bob)
    (fun _ _ => inr (JObject answer_without_currency)).

(** ** The handler before the workflow *)

(** The loop of the [email] handler of the first version of the worker:
    every PDF among the attachments overwrites [contentForAi]; there is
    no [break], and the bodies are not read. *)
Fixpoint legacy_scan (env : Env) (contentForAi : string) (l : list Attachment)
  : Outcome string :=
  match l with
  | [] => Ok contentForAi
  | attachment :: rest =>
      if String.eqb (mimeType attachment) "application/pdf"
      then match of_external (unpdf_extractText env (content attachment)) with
           | Threw e => Threw e
           | Ok pdf_text => legacy_scan env (redact_replace env pdf_text) rest
           end
      else legacy_scan env contentForAi rest
  end.

(** What that handler logs at its end, for the attachments postal-mime
    returned. *)
Definition legacy_contentForAi (env : Env) (attachments : list Attachment)
  : Outcome string :=
  if negb (List.length attachments =? 0)%nat
  then legacy_scan env "" attachments
  else Ok "".

(** ** More vocabulary *)

(** An attachment of postal-mime and the attachment the schema makes of
    it. *)
Definition attachment_of (a : PostalAttachment) (a' : Attachment) : Prop :=
  pm_filename a = Some (filename a') /\
  pm_mimeType a = Some (mimeType a') /\
  pm_content a = Some (content a') /\
  contentDisposition a' = pm_contentDisposition a /\
  contentId a' = pm_contentId a.

(** The keys of the shape of [ExpenseSchema]. *)
Definition shape_keys : list string :=
  ["vendor"; "expenseDate"; "amountValue"; "currencyCode"; "category"; "description"].

(** The keys [ExpenseSchema] cannot do without. *)
Definition required_keys : list string :=
  ["vendor"; "expenseDate"; "amountValue"; "currencyCode"; "category"].

Fixpoint all_chars (f : ascii -> bool) (s : string) : bool :=
  match s with
  | EmptyString => true
  | String c s' => f c && all_chars f s'
  end.

Definition postal_two_attachments : PostalEmail :=
  mkPostalEmail (Some "<m2@example.com>") (Some "Two files")
    (Some (mkAddress (Some "shop@example.com") (Some "Shop")))
    None (Some "<p>see attached</p>")
    (Some [ mkPostalAttachment (Some "logo.png") (Some "image/png") None None (Some []);
            mkPostalAttachment (Some "receipt.pdf") (Some "application/pdf")
              (Some "attachment") None (Some []) ]).

Definition parsed_two_attachments : ParsedEmail :=
  mkParsedEmail "<m2@example.com>" "Two files"
    (mkAddress (Some "shop@example.com") (Some "Shop"))
    None (Some "<p>see attached</p>")
    [ mkAttachment "logo.png" "image/png" None None [];
      mkAttachment "receipt.pdf" "application/pdf" (Some "attachment") None [] ].

(** The second attachment has no file name. *)
Definition postal_unnamed_attachment : PostalEmail :=
  mkPostalEmail (Some "<m3@example.com>") (Some "Scan")
    (Some (mkAddress (Some "shop@example.com") None)) (Some "see attached") None
    (Some [ mkPostalAttachment (Some "logo.png") (Some "image/png") None None (Some []);
            mkPostalAttachment None (Some "application/pdf") None None (Some []) ]).

(** The issues of the six fields of [ExpenseSchema], in the order of the
    shape. *)
Definition field_issues (o : list (string * json)) : list ZodIssue :=
  Zod.issues_of (Zod.string_ [Key "vendor"] (get_property "vendor" o)) ++
  Zod.issues_of (Zod.string_regex Regex.date_pattern "Date must be in DD-MM-YYYY format"
                   [Key "expenseDate"] (get_property "expenseDate" o)) ++
  Zod.issues_of (Zod.number_ [Key "amountValue"] (get_property "amountValue" o)) ++
  Zod.issues_of (Zod.string_length_upper 3 [Key "currencyCode"]
                   (get_property "currencyCode" o)) ++
  Zod.issues_of (Zod.string_ [Key "category"] (get_property "category" o)) ++
  Zod.issues_of (Zod.string_optional [Key "description"] (get_property "description" o)).

(** An answer with an empty vendor, a negative amount, a currency that
    is no currency and an extra key. *)
Definition answer_odd : list (string * json) :=
  [ ("vendor", JString "");
    ("expenseDate", JString "99-99-0000");
    ("amountValue", JNumber (-5 # 1)%Q);
    ("currencyCode", JString "a1?");
    ("category", JString "Meals");
    ("description", JString "refund");
    ("confidence", JNumber (1 # 2)%Q) ].

Definition expense_odd : Expense :=
  mkExpense "" "99-99-0000" (-5 # 1)%Q "A1?" "Meals" (Some "refund").

(** An answer with two fields missing and a third of the wrong type. *)
Definition answer_sparse : list (string * json) :=
  [ ("expenseDate", JString "12-03-2024");
    ("amountValue", JString "42");
    ("category", JString "Meals") ].

(** The expense row step 5 writes. *)
Definition expense_row (id email_id now : Z) (aiData : Expense) (d : string)
  : Expenses.row :=
  Expenses.mkRow id email_id (amountValue aiData) (Some (currencyCode aiData)) (Some d)
    (formattedDate (expenseDate aiData)) (Some (category aiData))
    (Some (vendor aiData)) 0 now now.

(** The database after the INSERT of step 2. *)
Definition recorded (db : D1) (id now : Z) (e : ParsedEmail) (fa : string) : D1 :=
  mkD1 (processed_emails db ++ [pending_entry id now e fa]) (expenses db)
    (categories db) id (seq_expenses db).

(** The database after the INSERT of step 5. *)
Definition with_expense (db : D1) (x : Expenses.row) : D1 :=
  mkD1 (processed_emails db) (expenses db ++ [x]) (categories db)
    (seq_processed_emails db) (Expenses.id x).

(** The database after the UPDATE of step 6. *)
Definition marked_processed (db : D1) (now id : Z) : D1 :=
  mkD1 (map (set_status now "processed" id) (processed_emails db)) (expenses db)
    (categories db) (seq_processed_emails db) (seq_expenses db).

(** An accepted answer that the [expenses] table takes: the description
    is there, the amount is positive and the category is in
    [categories]. *)
Definition storable (aiData : Expense) (d : string) (db : D1) : Prop :=
  description aiData = Some d /\
  Qle_bool (amountValue aiData) 0 = false /\
  String.length (currencyCode aiData) = 3%nat /\
  has_category (category aiData) db = true.

Definition next_email_id (db : D1) : Z :=
  next_rowid (seq_processed_emails db) (map ProcessedEmails.id (processed_emails db)).

Definition next_expense_id (db : D1) : Z :=
  next_rowid (seq_expenses db) (map Expenses.id (expenses db)).

(** The ledger row of an email after step 6. *)
Definition processed_entry (id received now : Z) (email : ParsedEmail)
           (from_address : string) : ProcessedEmails.row :=
  ProcessedEmails.mkRow id (messageId email) (Some (subject email)) from_address
    received now "processed" 0.

(** The three ways a run leaves the two tables: untouched; with one more
    ledger row, still pending; with one more ledger row, processed, and
    one more expense row that refers to it. *)
Inductive run_tables (env : Env) (email : list Byte.byte) (w : World)
  : RunResult -> D1 -> Prop :=
| tables_untouched (step : string) (err : JsError) (db' : D1) :
    step = "parse email" \/ step = "recordInitialEmailProcessing" ->
    processed_emails db' = processed_emails (DB w) ->
    expenses db' = expenses (DB w) ->
    categories db' = categories (DB w) ->
    run_tables env email w (Errored step err) db'
| tables_pending (e : ParsedEmail) (fa : string) (err : JsError) (db' : D1) :
    parses_to env email e ->
    address (from e) = Some fa ->
    has_message_id (messageId e) (DB w) = false ->
    processed_emails db'
      = processed_emails (DB w)
        ++ [pending_entry (next_email_id (DB w)) (clock w) e fa] ->
    expenses db' = expenses (DB w) ->
    categories db' = categories (DB w) ->
    run_tables env email w (Errored "insertExpenseRecord" err) db'
| tables_processed (e : ParsedEmail) (fa : string) (response : json)
                   (aiData : Expense) (d : string) (db' : D1) :
    parses_to env email e ->
    address (from e) = Some fa ->
    has_message_id (messageId e) (DB w) = false ->
    ExpenseSchema_parse response = inr aiData ->
    storable aiData d (DB w) ->
    processed_emails db'
      = processed_emails (DB w)
        ++ [processed_entry (next_email_id (DB w)) (clock w) (clock w) e fa] ->
    expenses db'
      = expenses (DB w)
        ++ [expense_row (next_expense_id (DB w)) (next_email_id (DB w)) (clock w)
              aiData d] ->
    categories db' = categories (DB w) ->
    run_tables env email w Completed db'.





(** An expense row as the workflow writes it. *)
Definition well_formed_expense (db : D1) (x : Expenses.row) : Prop :=
  Qle_bool (Expenses.amount x) 0 = false /\
  (exists c, Expenses.currency x = Some c /\ String.length c = 3%nat /\
             all_chars (fun a => negb (Js.is_lower a)) c = true) /\
  (exists d, Expenses.description x = Some d) /\
  Regex.test stored_date_pattern (Expenses.expense_date x) = true /\
  (exists g, Expenses.category x = Some g /\ has_category g db = true) /\
  (exists v, Expenses.vendor x = Some v) /\
  Expenses.is_reimbursable x = 0%Z.

(** The model fails at its call number [n]: the binding throws, or the
    answer does not pass validation. *)
Definition model_fails (env : Env) (n : nat) (request : AiRequest) : Prop :=
  (exists message, AI_run env n request = inl message) \/
  (exists response issues,
      AI_run env n request = inr response /\
      ExpenseSchema_parse response = inl issues).

(** The database after a run that went through. *)
Definition completed_db (db : D1) (now : Z) (e : ParsedEmail) (fa : string)
           (aiData : Expense) (d : string) : D1 :=
  marked_processed
    (with_expense (recorded db (next_email_id db) now e fa)
       (expense_row (next_expense_id db) (next_email_id db) now aiData d))
    now (next_email_id db).

(** An email with nothing in it. *)
Definition postal_empty : PostalEmail :=
  mkPostalEmail (Some "<m4@example.com>") (Some "") 
    (Some (mkAddress (Some "shop@example.com") None)) None None (Some []).

Definition email_empty : ParsedEmail :=
  mkParsedEmail "<m4@example.com>" ""
    (mkAddress (Some "shop@example.com") None) None None [].

(** A model that throws at its first call and answers at the second; an
    email without content. *)
Definition env_second_try : Env :=
  mkEnv "Bob" "bob@example.com" "1 Main St" "12345"
    (fun _ => inr postal_empty)
    (fun _ => inl "no text layer")
    (fun n _ => match n with
                | O => inl "model overloaded"
                | S _ => inr (JObject answer_meals)
                end).

Definition expense_meals : Expense :=
  mkExpense "Acme" "12-03-2024" (42 # 1)%Q "USD" "Meals" (Some "").

(** A model that answers at once, for the email without content. *)
Definition env_empty_email : Env :=
  mkEnv "Bob" "bob@example.com" "1 Main St" "12345"
    (fun _ => inr postal_empty)
    (fun _ => inl "no text layer")
    (fun _ _ => inr (JObject answer_meals)).

(** A callback that calls the model at most [k] times. *)
Definition calls_model_at_most {A} (k : nat) (cb : Callback A) : Prop :=
  forall w r w', cb w = (r, w') ->
                 (ai_calls w <= ai_calls w' <= ai_calls w + k)%nat.

(** None of the four configured literals occurs in the text. *)
Definition free_of_literals (env : Env) (s : string) : Prop :=
  Js.includes (YOUR_NAME env) s = false /\
  Js.includes (YOUR_EMAIL env) s = false /\
  Js.includes (YOUR_ADDRESS env) s = false /\
  Js.includes (YOUR_POSTAL_CODE env) s = false.

(** An email postal-mime cannot read, or one the schema rejects. *)
Definition unparsable (env : Env) (email : list Byte.byte) : Prop :=
  (exists message, PostalMime_parse env email = inl message) \/
  (exists p issues, PostalMime_parse env email = inr p /\
                    ParsedEmailSchema_parse p = inl issues).

Definition env_unnamed_attachment : Env :=
  mkEnv "Bob" "bob@example.com" "1 Main St" "12345"
    (fun _ => inr postal_unnamed_attachment)
    (fun _ => inr "Bob paid; signed Bob")
    (fun _ _ => inr (JObject answer_meals)).

Definition postal_no_sender : PostalEmail :=
  mkPostalEmail (Some "<m5@example.com>") (Some "Receipt") (Some (mkAddress None None))
    (Some "Invoice from Acme $42 USD") None None.

Definition email_no_sender : ParsedEmail :=
  mkParsedEmail "<m5@example.com>" "Receipt" (mkAddress None None)
    (Some "Invoice from Acme $42 USD") None [].

Definition env_no_sender : Env :=
  mkEnv "Bob" "bob@example.com" "1 Main St" "12345"
    (fun _ => inr postal_no_sender)
    (fun _ => inr "Bob paid; signed Bob")
    (fun _ _ => inr (JObject answer_meals)).

(** No dash in the string. *)
Definition dashless (s : string) : bool :=
  all_chars (fun c => negb (Ascii.eqb c "-")) s.

Definition expense_unlisted : Expense :=
  mkExpense "Acme" "12-03-2024" (42 # 1)%Q "USD" "Gifts" (Some "").

Definition two_pdfs : list Attachment :=
  [ mkAttachment "invoice.pdf" "application/pdf" None None [Byte.x31];
    mkAttachment "logo.png" "image/png" None None [];
    mkAttachment "receipt.pdf" "application/pdf" None None [Byte.x32] ].

(** unpdf that tells the two PDFs of [two_pdfs] apart. *)
Definition env_two_pdfs : Env :=
  mkEnv "Bob" "bob@example.com" "1 Main St" "12345"
    (fun _ => inr postal_two_attachments)
    (fun b => match b with
              | [Byte.x31] => inr "Invoice for Bob"
              | [Byte.x32] => inr "Receipt for Bob"
              | _ => inl "not a PDF"
              end)
    (fun _ _ => inr (JObject answer_meals)).

(** ** The date of an expense *)

Lemma digit_not_dash (c : ascii) :
  Regex.is_digit c = true -> Ascii.eqb c "-" = false.
Proof.
  destruct c as [[] [] [] [] [] [] [] []]; vm_compute; congruence.
Qed.

Lemma test_cons (a : Regex.atom) (pat : list Regex.atom) (s : string) :
  Regex.test (a :: pat) s = true ->
  exists c s', s = String c s' /\ Regex.atom_matches a c = true /\
               Regex.test pat s' = true.
Proof.
  destruct s as [|c s']; simpl; [discriminate|].
  intros H. apply andb_true_iff in H. destruct H. eauto.
Qed.

Lemma test_nil (s : string) : Regex.test [] s = true -> s = EmptyString.
Proof. destruct s; simpl; [reflexivity | discriminate]. Qed.

(** A string the date pattern accepts, spelled out. *)
Lemma date_pattern_inv (s : string) :
  Regex.test Regex.date_pattern s = true ->
  exists d1 d2 m1 m2 y1 y2 y3 y4,
    s = String d1 (String d2 (String "-" (String m1 (String m2 (String "-"
          (String y1 (String y2 (String y3 (String y4 EmptyString))))))))) /\
    Forall (fun c => Regex.is_digit c = true) [d1; d2; m1; m2; y1; y2; y3; y4].
Proof.
  unfold Regex.date_pattern. intros H.
  repeat match goal with
         | H : Regex.test (_ :: _) _ = true |- _ =>
             apply test_cons in H; destruct H as (? & ? & -> & ? & H)
         end.
  apply test_nil in H. subst.
  repeat match goal with
         | E : Regex.atom_matches (Regex.Lit _) _ = true |- _ =>
             apply Ascii.eqb_eq in E; subst
         end.
  do 8 eexists. split; [reflexivity|].
  repeat constructor; assumption.
Qed.

Ltac no_dash :=
  repeat match goal with
         | D : Regex.is_digit ?c = true |- context [Ascii.eqb ?c "-"] =>
             rewrite (digit_not_dash c D)
         end.

Lemma formattedDate_shape (d1 d2 m1 m2 y1 y2 y3 y4 : ascii) :
  Forall (fun c => Regex.is_digit c = true) [d1; d2; m1; m2; y1; y2; y3; y4] ->
  formattedDate
    (String d1 (String d2 (String "-" (String m1 (String m2 (String "-"
       (String y1 (String y2 (String y3 (String y4 EmptyString)))))))))) =
  String y1 (String y2 (String y3 (String y4 (String "-" (String m1 (String m2
    (String "-" (String d1 (String d2 EmptyString))))))))).
Proof.
  intros F.
  repeat match goal with
         | F : Forall _ (_ :: _) |- _ => inversion F; subst; clear F
         end.
  unfold formattedDate, Js.split. cbn. no_dash. cbn. no_dash. cbn. no_dash. reflexivity.
Qed.

Lemma displayDate_shape (d1 d2 m1 m2 y1 y2 y3 y4 : ascii) :
  Forall (fun c => Regex.is_digit c = true) [d1; d2; m1; m2; y1; y2; y3; y4] ->
  displayDate
    (String y1 (String y2 (String y3 (String y4 (String "-" (String m1 (String m2
       (String "-" (String d1 (String d2 EmptyString)))))))))) =
  String d1 (String d2 (String "-" (String m1 (String m2 (String "-"
    (String y1 (String y2 (String y3 (String y4 EmptyString))))))))).
Proof.
  intros F.
  repeat match goal with
         | F : Forall _ (_ :: _) |- _ => inversion F; subst; clear F
         end.
  unfold displayDate, Js.split. cbn. no_dash. cbn. no_dash. cbn. no_dash. reflexivity.
Qed.

(** The dates that pass validation are the ones the pattern accepts. *)
Lemma ExpenseSchema_parse_date (response : json) (e : Expense) :
  ExpenseSchema_parse response = inr e ->
  Regex.test Regex.date_pattern (expenseDate e) = true.
Proof.
  unfold ExpenseSchema_parse. destruct response; try discriminate.
  unfold Zod.string_regex.
  destruct (Zod.string_ [Key "vendor"] _); [discriminate|].
  destruct (Zod.string_ [Key "expenseDate"] _) as [|d]; [discriminate|].
  destruct (Regex.test Regex.date_pattern d) eqn:T; [|discriminate].
  destruct (Zod.number_ _ _); [discriminate|].
  destruct (Zod.string_length_upper _ _ _); [discriminate|].
  destruct (Zod.string_ [Key "category"] _); [discriminate|].
  destruct (Zod.string_optional _ _); [discriminate|].
  intros E. inversion E; subst. exact T.
Qed.

(** Storing an accepted date and reading it back. *)
Lemma displayDate_formattedDate (s : string) :
  Regex.test Regex.date_pattern s = true ->
  Regex.test stored_date_pattern (formattedDate s) = true /\
  displayDate (formattedDate s) = s.
Proof.
  intros H.
  destruct (date_pattern_inv s H)
    as (d1 & d2 & m1 & m2 & y1 & y2 & y3 & y4 & -> & F).
  rewrite (formattedDate_shape _ _ _ _ _ _ _ _ F).
  split.
  - repeat match goal with
           | F : Forall _ (_ :: _) |- _ => inversion F; subst; clear F
           end.
    cbn.
    repeat match goal with
           | D : Regex.is_digit ?c = true |- _ => rewrite D; clear D
           end.
    reflexivity.
  - apply displayDate_shape, F.
Qed.

(** The reformatting loses nothing: two accepted dates stored alike are
    the same date. *)
Corollary formattedDate_injective (s t : string) :
  Regex.test Regex.date_pattern s = true ->
  Regex.test Regex.date_pattern t = true ->
  formattedDate s = formattedDate t -> s = t.
Proof.
  intros Hs Ht E.
  rewrite <- (proj2 (displayDate_formattedDate s Hs)),
          <- (proj2 (displayDate_formattedDate t Ht)), E.
  reflexivity.
Qed.

(** C7. Every expense date that validation accepts (a string matching
    DD-MM-YYYY) survives the reformatting for storage: the stored form
    is YYYY-MM-DD, reading it back as DD-MM-YYYY gives the original
    string, and no other accepted date is stored the same way. *)
Theorem expenseDate_roundtrip (s : string) :
  Regex.test Regex.date_pattern s = true ->
  Regex.test stored_date_pattern (formattedDate s) = true /\
  displayDate (formattedDate s) = s /\
  (forall t, Regex.test Regex.date_pattern t = true ->
             formattedDate t = formattedDate s -> t = s).
Proof.
  intros H. destruct (displayDate_formattedDate s H) as [P R].
  repeat split; try assumption.
  intros t Ht E. exact (formattedDate_injective t s Ht H E).
Qed.

Lemma expenseDate_roundtrip_witness :
  Regex.test Regex.date_pattern "12-03-2024" = true /\
  Regex.test stored_date_pattern (formattedDate "12-03-2024") = true /\
  displayDate (formattedDate "12-03-2024") = "12-03-2024" /\
  (forall t, Regex.test Regex.date_pattern t = true ->
             formattedDate t = formattedDate "12-03-2024" -> t = "12-03-2024").
Proof.
  split; [reflexivity | apply (expenseDate_roundtrip "12-03-2024"); reflexivity].
Defined.

(** ** The validation of the model's answer *)

Lemma get_set_same (k : string) (v : json) (o : list (string * json)) :
  get_property k (set_property k v o) = Some v.
Proof.
  induction o as [|[k' v'] o IH]; simpl.
  - now rewrite String.eqb_refl.
  - destruct (String.eqb k k') eqn:E; simpl.
    + now rewrite String.eqb_refl.
    + now rewrite E.
Qed.

Lemma get_set_other (k k' : string) (v : json) (o : list (string * json)) :
  String.eqb k' k = false ->
  get_property k' (set_property k v o) = get_property k' o.
Proof.
  intros N. induction o as [|[k0 v0] o IH]; simpl.
  - now rewrite N.
  - destruct (String.eqb k k0) eqn:E; simpl.
    + apply String.eqb_eq in E. subst k0. now rewrite N.
    + now rewrite IH.
Qed.

Lemma string_inv (path : list PathSeg) (v : option json) (s : string) :
  Zod.string_ path v = inr s -> v = Some (JString s).
Proof.
  destruct v as [[]|]; simpl; intros H; inversion H; reflexivity.
Qed.

Lemma ExpenseSchema_parse_accepted (o : list (string * json)) (e : Expense) :
  ExpenseSchema_parse (JObject o) = inr e <-> accepted o e.
Proof.
  unfold ExpenseSchema_parse, accepted, Zod.string_regex, Zod.string_length_upper,
    Zod.string_optional.
  split.
  - destruct (Zod.string_ [Key "vendor"] _) as [|v] eqn:Ev; [discriminate|].
    destruct (Zod.string_ [Key "expenseDate"] _) as [|d] eqn:Ed; [discriminate|].
    destruct (Regex.test Regex.date_pattern d) eqn:T; [|discriminate].
    destruct (Zod.number_ _ _) as [|a] eqn:Ea; [discriminate|].
    destruct (Zod.string_ [Key "currencyCode"] _) as [|c] eqn:Ec; [discriminate|].
    destruct (String.length c =? 3)%nat eqn:L; [|discriminate].
    destruct (Zod.string_ [Key "category"] _) as [|g] eqn:Eg; [discriminate|].
    apply string_inv in Ev, Ed, Ec, Eg.
    assert (Ha : get_property "amountValue" o = Some (JNumber a)).
    { destruct (get_property "amountValue" o) as [[]|]; simpl in Ea;
        inversion Ea; reflexivity. }
    apply Nat.eqb_eq in L.
    destruct (get_property "description" o) as [[]|] eqn:Es; simpl;
      try discriminate; intros E; inversion E; subst; simpl;
      repeat split; eauto.
  - intros (Ev & Ed & T & Ea & (c & Ec & L & Eu) & Eg & Es).
    rewrite Ev, Ed, Ea, Ec, Eg. unfold Zod.string_, Zod.number_.
    rewrite T, L.
    destruct e as [v d a cu g s]; cbn [vendor expenseDate amountValue currencyCode
      category description] in *.
    destruct (get_property "description" o) as [[]|];
      try contradiction; subst; reflexivity.
Qed.


(** C5, as stated, fails: an answer whose category is none of the eight
    labels passes [ExpenseSchema.parse]. *)
Lemma unlisted_category_passes :
  existsb (String.eqb "Gifts") validCategories = false /\
  ExpenseSchema_parse (JObject answer_gifts) = inr expense_gifts.
Proof. split; reflexivity. Qed.

(** C5, amended. [ExpenseSchema] asks of [category] only that it is a
    string: the category of an accepted answer is handed on as it came,
    the same answer with any other string as category is accepted too,
    and the eight labels appear as the enum of the [category] property
    of the schema sent to the model. *)
Theorem category_is_any_string (o : list (string * json)) (e : Expense) (g : string) :
  ExpenseSchema_parse (JObject o) = inr e ->
  get_property "category" o = Some (JString (category e)) /\
  ExpenseSchema_parse (JObject (set_property "category" (JString g) o))
    = inr (with_category e g) /\
  (forall contentForAi,
      enum_of "category" (build_request contentForAi) = Some validCategories).
Proof.
  intros H. apply ExpenseSchema_parse_accepted in H.
  destruct H as (Ev & Ed & T & Ea & Ec & Eg & Es).
  split; [exact Eg|]. split; [|reflexivity].
  apply ExpenseSchema_parse_accepted. unfold accepted, with_category; simpl.
  rewrite get_set_same.
  rewrite !get_set_other by reflexivity.
  repeat split; assumption.
Qed.

Lemma category_is_any_string_witness :
  ExpenseSchema_parse (JObject answer_gifts) = inr expense_gifts /\
  get_property "category" answer_gifts = Some (JString "Gifts") /\
  ExpenseSchema_parse (JObject (set_property "category" (JString "Snacks") answer_gifts))
    = inr (with_category expense_gifts "Snacks") /\
  (forall contentForAi,
      enum_of "category" (build_request contentForAi) = Some validCategories).
Proof.
  split; [reflexivity|].
  apply (category_is_any_string answer_gifts expense_gifts "Snacks"); reflexivity.
Defined.

(** C6, as stated, fails: an answer without [description] passes and the
    parsed value has no description, where the claim wants the empty
    string. *)
Lemma absent_description_stays_undefined :
  get_property "description" answer_gifts = None /\
  ExpenseSchema_parse (JObject answer_gifts) = inr expense_gifts /\
  description expense_gifts = None /\
  description expense_gifts <> Some "".
Proof. repeat split; discriminate. Qed.

(** C6, amended. When an answer passes validation, its description comes
    out as it went in: [undefined] when the field is absent, and the
    string of the field (the empty string only if that is what the model
    wrote) when it is present. *)
Theorem description_passed_through (o : list (string * json)) (e : Expense) :
  ExpenseSchema_parse (JObject o) = inr e ->
  (get_property "description" o = None -> description e = None) /\
  (forall s, get_property "description" o = Some (JString s) ->
             description e = Some s) /\
  (forall s, description e = Some s ->
             get_property "description" o = Some (JString s)).
Proof.
  intros H. apply ExpenseSchema_parse_accepted in H.
  destruct H as (_ & _ & _ & _ & _ & _ & Es).
  destruct (get_property "description" o) as [[]|]; try contradiction;
    repeat split; intros; congruence.
Qed.

Lemma description_passed_through_witness :
  ExpenseSchema_parse (JObject answer_gifts) = inr expense_gifts /\
  (get_property "description" answer_gifts = None ->
   description expense_gifts = None) /\
  (forall s, get_property "description" answer_gifts = Some (JString s) ->
             description expense_gifts = Some s) /\
  (forall s, description expense_gifts = Some s ->
             get_property "description" answer_gifts = Some (JString s)).
Proof.
  split; [reflexivity|].
  apply (description_passed_through answer_gifts expense_gifts); reflexivity.
Defined.

(** ** The text handed to the model *)

Lemma scan_attachments_no_pdf (env : Env) (l : list Attachment) :
  forallb (fun a => negb (is_pdf a)) l = true ->
  scan_attachments env l = Ok "".
Proof.
  induction l as [|a l IH]; simpl; [reflexivity|].
  intros H. apply andb_true_iff in H. destruct H as [Ha Hl].
  unfold is_pdf in Ha. apply negb_true_iff in Ha. rewrite Ha. exact (IH Hl).
Qed.

(** The first PDF among the attachments decides, whatever follows it. *)
Lemma first_pdf_wins (env : Env) (before after : list Attachment) (a : Attachment)
      (pdf_text : string) (email : ParsedEmail) (w : World) :
  attachments email = before ++ a :: after ->
  forallb (fun b => negb (is_pdf b)) before = true ->
  is_pdf a = true ->
  unpdf_extractText env (content a) = inr pdf_text ->
  extract_text_for_AI env email w
    = (Ok (mkContent (redact_replace env pdf_text) "attachment"), w).
Proof.
  intros E Hb Ha Ht. unfold extract_text_for_AI. rewrite E.
  replace (0 <? List.length (before ++ a :: after))%nat with true
    by (symmetry; apply Nat.ltb_lt; rewrite length_app; simpl; lia).
  assert (S : scan_attachments env (before ++ a :: after)
              = Ok (redact_replace env pdf_text)).
  { clear E. induction before as [|b before IH]; simpl.
    - unfold is_pdf in Ha. rewrite Ha, Ht. reflexivity.
    - simpl in Hb. apply andb_true_iff in Hb. destruct Hb as [Hb Hbs].
      unfold is_pdf in Hb. apply negb_true_iff in Hb. rewrite Hb. exact (IH Hbs). }
  rewrite S. reflexivity.
Qed.

(** Without attachments, a plain-text body that is not empty, before
    and after the redaction, is used. *)
Lemma body_text_used (env : Env) (email : ParsedEmail) (t : string) (w : World) :
  attachments email = [] ->
  text email = Some t ->
  t <> EmptyString ->
  redact_replaceAll env t <> EmptyString ->
  extract_text_for_AI env email w
    = (Ok (mkContent (redact_replaceAll env t) "body"), w).
Proof.
  intros Ea Et Nt N. unfold extract_text_for_AI. rewrite Ea, Et.
  destruct t as [|c t]; [contradiction|]. cbn [List.length Nat.ltb Nat.leb Js.truthy orb].
  unfold Js.or_else. cbn [option_map Js.truthy].
  destruct (redact_replaceAll env (String c t)); [contradiction | reflexivity].
Qed.

(** Without attachments and without a plain-text body, the HTML body is
    used. *)
Lemma body_html_used (env : Env) (email : ParsedEmail) (h : string) (w : World) :
  attachments email = [] ->
  text email = None ->
  html email = Some h ->
  h <> EmptyString ->
  extract_text_for_AI env email w
    = (Ok (mkContent (redact_replaceAll env h) "body"), w).
Proof.
  intros Ea Et Eh Nh. unfold extract_text_for_AI. rewrite Ea, Et, Eh.
  destruct h as [|c h]; [contradiction|].
  cbn [List.length Nat.ltb Nat.leb Js.truthy orb].
  unfold Js.or_else. cbn [option_map Js.truthy].
  destruct (redact_replaceAll env (String c h)); reflexivity.
Qed.

(** Without attachments and without a body, there is nothing. *)
Lemma nothing_to_extract (env : Env) (email : ParsedEmail) (w : World) :
  attachments email = [] ->
  Js.truthy (text email) = false ->
  Js.truthy (html email) = false ->
  extract_text_for_AI env email w = (Ok (mkContent "" "none"), w).
Proof.
  intros Ea Et Eh. unfold extract_text_for_AI. rewrite Ea, Et, Eh. reflexivity.
Qed.

(** C2, the code against the claim. The text of a PDF goes through
    [replace], which substitutes the first occurrence only: with the name
    Bob configured, the PDF text [Bob paid; signed Bob] reaches the model
    with its second Bob intact.  The same text as a body goes through
    [replaceAll] and loses both. *)
Theorem pdf_text_keeps_later_occurrences (w : World) :
  extract_text_for_AI env_bob (email_with None [receipt_pdf]) w
    = (Ok (mkContent "Payee Name paid; signed Bob" "attachment"), w) /\
  Js.includes (YOUR_NAME env_bob) "Payee Name paid; signed Bob" = true /\
  extract_text_for_AI env_bob (email_with (Some "Bob paid; signed Bob") []) w
    = (Ok (mkContent "Payee Name paid; signed Payee Name" "body"), w) /\
  Js.includes (YOUR_NAME env_bob) "Payee Name paid; signed Payee Name" = false.
Proof. repeat split. Qed.

(** C3, the code against the claim. When there are attachments and none
    of them is a PDF, the step returns the empty content with source
    [attachment]: the bodies are never looked at. *)
Theorem no_pdf_no_body_fallback (env : Env) (email : ParsedEmail) (w : World) :
  attachments email <> [] ->
  forallb (fun a => negb (is_pdf a)) (attachments email) = true ->
  extract_text_for_AI env email w = (Ok (mkContent "" "attachment"), w).
Proof.
  intros N H. unfold extract_text_for_AI.
  destruct (attachments email) as [|a l] eqn:E; [contradiction|].
  rewrite (scan_attachments_no_pdf env (a :: l) H). reflexivity.
Qed.

Lemma no_pdf_no_body_fallback_witness :
  text (email_with (Some "Invoice from Acme $42 USD") [logo_png])
    = Some "Invoice from Acme $42 USD" /\
  extract_text_for_AI env_bob
    (email_with (Some "Invoice from Acme $42 USD") [logo_png])
    (mkWorld fresh_db 0 0 [])
  = (Ok (mkContent "" "attachment"), mkWorld fresh_db 0 0 []).
Proof.
  split; [reflexivity|].
  apply (no_pdf_no_body_fallback env_bob
           (email_with (Some "Invoice from Acme $42 USD") [logo_png])
           (mkWorld fresh_db 0 0 [])).
  - discriminate.
  - reflexivity.
Defined.

(** ** Steps that need the id of the ledger row *)

Lemma insertExpenseRecord_missing (aiData : Expense) (r : InitialEmailRecord)
      (w : World) :
  missing (emailRecordId r) = true ->
  insertExpenseRecord (Ok aiData) r w = (Threw missing_id_error, w).
Proof.
  unfold insertExpenseRecord. intros M.
  destruct (emailRecordId r) as [id|]; [rewrite M|]; reflexivity.
Qed.

Lemma finalize_missing (r : InitialEmailRecord) (w : World) :
  missing (emailRecordId r) = true ->
  finalizeEmailProcessingStatus r w
    = (Ok (mkFinalize false (Some "Missing emailRecordId") None), w).
Proof.
  unfold finalizeEmailProcessingStatus. intros M.
  destruct (emailRecordId r) as [id|]; [rewrite M|]; reflexivity.
Qed.

Lemma finalize_present (r : InitialEmailRecord) (id : Z) (w : World) :
  emailRecordId r = Some id -> id <> 0%Z ->
  finalizeEmailProcessingStatus r w
    = (Ok (mkFinalize true None
             (Some (Z.of_nat (List.length
                      (filter (fun e => (ProcessedEmails.id e =? id)%Z)
                         (processed_emails (DB w))))))),
       with_DB w
         (mkD1 (map (set_status (clock w) "processed" id) (processed_emails (DB w)))
            (expenses (DB w)) (categories (DB w)) (seq_processed_emails (DB w))
            (seq_expenses (DB w)))).
Proof.
  unfold finalizeEmailProcessingStatus. intros E N. rewrite E.
  apply Z.eqb_neq in N. simpl. rewrite N. reflexivity.
Qed.

Lemma set_status_hit (now : Z) (status : string) (id : Z) (r : ProcessedEmails.row) :
  ProcessedEmails.id r = id ->
  ProcessedEmails.status (set_status now status id r) = status /\
  ProcessedEmails.processed_at (set_status now status id r) = now.
Proof.
  intros E. unfold set_status. apply Z.eqb_eq in E. rewrite E. split; reflexivity.
Qed.

Lemma set_status_miss (now : Z) (status : string) (id : Z) (r : ProcessedEmails.row) :
  ProcessedEmails.id r <> id -> set_status now status id r = r.
Proof.
  intros N. unfold set_status. apply Z.eqb_neq in N. now rewrite N.
Qed.

Lemma set_status_keeps (now : Z) (status : string) (id : Z) (r : ProcessedEmails.row) :
  ProcessedEmails.id (set_status now status id r) = ProcessedEmails.id r /\
  ProcessedEmails.message_id (set_status now status id r)
    = ProcessedEmails.message_id r /\
  ProcessedEmails.is_reimbursable (set_status now status id r)
    = ProcessedEmails.is_reimbursable r.
Proof.
  unfold set_status. destruct (ProcessedEmails.id r =? id)%Z; repeat split.
Qed.

(** C8, as stated, fails: with the id missing the step is attempted a
    second time, and what it throws is a plain [Error]. *)
Lemma missing_id_second_attempt :
  insert_and_finish (Ok expense_gifts) (mkInitial None true) (mkWorld fresh_db 0 0 [])
  = (Errored "insertExpenseRecord" missing_id_error,
     mkWorld fresh_db 0 0 ["insertExpenseRecord"; "insertExpenseRecord"]) /\
  attempts_of "insertExpenseRecord"
    (snd (insert_and_finish (Ok expense_gifts) (mkInitial None true)
            (mkWorld fresh_db 0 0 []))) = 2%nat.
Proof. split; reflexivity. Qed.

(** C8, amended. When the insertExpense step runs with the parsed expense
    at hand and the ledger id missing, every attempt throws a plain
    [Error]; the step is retried like any other failing step, once under
    [defaultConfig], and then the run fails at this step. Nothing is
    written to the database and the finalize step is never started. *)
Theorem missing_id_fails_after_retry (aiData : Expense) (r : InitialEmailRecord)
        (w : World) :
  missing (emailRecordId r) = true ->
  insert_and_finish (Ok aiData) r w
  = (Errored "insertExpenseRecord" missing_id_error,
     mkWorld (DB w) (clock w) (ai_calls w)
       (attempts w ++ ["insertExpenseRecord"] ++ ["insertExpenseRecord"])) /\
  retries_limit defaultConfig = 1%nat.
Proof.
  intros M. split; [|reflexivity].
  unfold insert_and_finish, step_do, defaultConfig. cbn [retries_limit attempt].
  rewrite (insertExpenseRecord_missing _ _ _ M). unfold missing_id_error at 1.
  cbn [attempt]. rewrite (insertExpenseRecord_missing _ _ _ M).
  unfold missing_id_error at 1. unfold log_attempt. cbn [DB clock ai_calls attempts].
  rewrite <- app_assoc. reflexivity.
Qed.

Lemma missing_id_fails_after_retry_witness :
  missing (emailRecordId (mkInitial (Some 0%Z) true)) = true /\
  insert_and_finish (Ok expense_gifts) (mkInitial (Some 0%Z) true)
    (mkWorld fresh_db 0 0 [])
  = (Errored "insertExpenseRecord" missing_id_error,
     mkWorld fresh_db 0 0 ([] ++ ["insertExpenseRecord"] ++ ["insertExpenseRecord"])) /\
  retries_limit defaultConfig = 1%nat.
Proof.
  split; [reflexivity|].
  apply (missing_id_fails_after_retry expense_gifts (mkInitial (Some 0%Z) true)
           (mkWorld fresh_db 0 0 [])).
  reflexivity.
Defined.

(** C9. With the ledger id missing, the finalize step returns an
    unsuccessful result at its first attempt, without a throw and without
    touching the database, and the run completes. With the id present, the
    update succeeds and the run completes; every ledger row with that id
    then has status [processed] and the current time as [processed_at],
    and the other rows are as they were. *)
Theorem finalize_best_effort (r : InitialEmailRecord) (w : World) :
  (missing (emailRecordId r) = true ->
   step_do "finalizeEmailProcessingStatus" defaultConfig
     (finalizeEmailProcessingStatus r) w
   = (Ok (mkFinalize false (Some "Missing emailRecordId") None),
      log_attempt "finalizeEmailProcessingStatus" w) /\
   finalize_and_finish r w
   = (Completed, log_attempt "finalizeEmailProcessingStatus" w)) /\
  (forall id, emailRecordId r = Some id -> id <> 0%Z ->
     exists w',
       finalize_and_finish r w = (Completed, w') /\
       (exists n, step_do "finalizeEmailProcessingStatus" defaultConfig
                    (finalizeEmailProcessingStatus r) w
                  = (Ok (mkFinalize true None (Some n)), w')) /\
       processed_emails (DB w')
         = map (set_status (clock w) "processed" id) (processed_emails (DB w)) /\
       (forall e', In e' (processed_emails (DB w')) -> ProcessedEmails.id e' = id ->
          ProcessedEmails.status e' = "processed" /\
          ProcessedEmails.processed_at e' = clock w) /\
       (forall e, In e (processed_emails (DB w)) -> ProcessedEmails.id e = id ->
          exists e', In e' (processed_emails (DB w')) /\
                     ProcessedEmails.id e' = id /\
                     ProcessedEmails.message_id e' = ProcessedEmails.message_id e) /\
       (forall e, In e (processed_emails (DB w)) -> ProcessedEmails.id e <> id ->
          In e (processed_emails (DB w'))) /\
       expenses (DB w') = expenses (DB w)).
Proof.
  split.
  - intros M. unfold finalize_and_finish, step_do, defaultConfig.
    cbn [retries_limit attempt].
    rewrite (finalize_missing _ _ M). split; reflexivity.
  - intros id E N. unfold finalize_and_finish, step_do, defaultConfig.
    cbn [retries_limit attempt].
    rewrite (finalize_present _ id _ E N). eexists. split; [reflexivity|].
    split; [eexists; reflexivity|]. cbn [with_DB DB processed_emails expenses].
    change (clock (log_attempt "finalizeEmailProcessingStatus" w)) with (clock w).
    change (DB (log_attempt "finalizeEmailProcessingStatus" w)) with (DB w).
    split; [reflexivity|].
    split; [|split; [|split; [|reflexivity]]].
    + intros e' He' Hid. apply in_map_iff in He'. destruct He' as (e & <- & _).
      apply set_status_hit.
      now rewrite (proj1 (set_status_keeps (clock w) "processed" id e)) in Hid.
    + intros e He Hid. exists (set_status (clock w) "processed" id e).
      split; [apply in_map, He|].
      destruct (set_status_keeps (clock w) "processed" id e) as (Ki & Km & _).
      split; congruence.
    + intros e He Hid. apply in_map_iff. exists e.
      split; [apply set_status_miss, Hid | exact He].
Qed.

Lemma finalize_best_effort_witness :
  finalize_and_finish (mkInitial None false) world_with_pending
    = (Completed, log_attempt "finalizeEmailProcessingStatus" world_with_pending) /\
  exists w',
    finalize_and_finish (mkInitial (Some 1%Z) true) world_with_pending
      = (Completed, w') /\
    processed_emails (DB w')
      = [ProcessedEmails.mkRow 1 "<m1@example.com>" (Some "Receipt")
           "shop@example.com" 5 9 "processed" 0].
Proof.
  split.
  - apply (proj1 (finalize_best_effort (mkInitial None false) world_with_pending)).
    reflexivity.
  - destruct (proj2 (finalize_best_effort (mkInitial (Some 1%Z) true)
                       world_with_pending) 1%Z eq_refl)
      as (w' & F & _ & P & _); [discriminate|].
    exists w'. split; [exact F | exact P].
Defined.

(** ** What the steps do to the database *)

Lemma same_store_refl (w : World) : same_store w w.
Proof. split; reflexivity. Qed.

Lemma same_store_trans (w1 w2 w3 : World) :
  same_store w1 w2 -> same_store w2 w3 -> same_store w1 w3.
Proof. unfold same_store. intros [] []. split; congruence. Qed.

Lemma same_store_log (step : string) (w : World) : same_store (log_attempt step w) w.
Proof. split; reflexivity. Qed.

Create HintDb store.
#[local] Hint Resolve same_store_refl same_store_log : store.

Lemma keeps_store_throws {A} (cb : Callback A) :
  keeps_store cb -> throws_keep_store cb.
Proof. intros H w e w' E. exact (H _ _ _ E). Qed.

(** When failed attempts leave no trace, a step ends the way its last
    attempt ends, and that attempt saw the database the step started
    with. *)
Lemma attempt_last {A} (step : string) (n : nat) (cb : Callback A) :
  throws_keep_store cb ->
  forall w r w',
    attempt step n cb w = (r, w') ->
    exists w0, same_store w0 w /\ cb w0 = (r, w').
Proof.
  intros T. induction n as [|n IH]; intros w r w'; cbn [attempt];
    destruct (cb (log_attempt step w)) as [[a|e] w1] eqn:C.
  - intros E. inversion E; subst. eauto with store.
  - destruct e; intros E; inversion E; subst; eauto with store.
  - intros E. inversion E; subst. eauto with store.
  - assert (S1 : same_store w1 w).
    { eapply same_store_trans; [exact (T _ _ _ C) | apply same_store_log]. }
    destruct e; intros E;
      try (inversion E; subst; eauto with store; fail);
      destruct (IH _ _ _ E) as (w0 & S0 & C0);
      exists w0; (split; [eapply same_store_trans; eassumption | exact C0]).
Qed.

Lemma step_do_last {A} (step : string) (config : WorkflowStepConfig) (cb : Callback A) :
  throws_keep_store cb ->
  forall w r w',
    step_do step config cb w = (r, w') ->
    exists w0, same_store w0 w /\ cb w0 = (r, w').
Proof. intros T w r w'. apply attempt_last, T. Qed.

Lemma step_do_keeps_store {A} (step : string) (config : WorkflowStepConfig)
      (cb : Callback A) :
  keeps_store cb -> keeps_store (step_do step config cb).
Proof.
  intros K w r w' E.
  destruct (step_do_last step config cb (keeps_store_throws cb K) _ _ _ E)
    as (w0 & S0 & C0).
  eapply same_store_trans; [exact (K _ _ _ C0) | exact S0].
Qed.

Lemma parse_email_keeps (env : Env) (email : list Byte.byte) :
  keeps_store (parse_email env email).
Proof. intros w r w' E. unfold parse_email in E. inversion E. apply same_store_refl. Qed.

Lemma extract_text_keeps (env : Env) (emailData : ParsedEmail) :
  keeps_store (extract_text_for_AI env emailData).
Proof.
  intros w r w' E. unfold extract_text_for_AI in E. inversion E.
  apply same_store_refl.
Qed.

Lemma send_to_AI_keeps (env : Env) (parsedContent : Outcome ExtractedContent) :
  keeps_store (send_to_AI env parsedContent).
Proof.
  intros w r w' E. unfold send_to_AI in E.
  destruct parsedContent as [c|e]; [|inversion E; apply same_store_refl].
  destruct (of_external _) as [response|e];
    [destruct (ExpenseSchema_parse response)|];
    inversion E; split; reflexivity.
Qed.

(** Step 2 either throws and writes nothing, or appends one pending row
    for a message id the table did not hold. *)
Lemma recordInitial_effect (email : ParsedEmail) (w : World)
      (r : Outcome InitialEmailRecord) (w' : World) :
  recordInitialEmailProcessing email w = (r, w') ->
  (exists e, r = Threw e /\ w' = w) \/
  (exists id fa,
      r = Ok (mkInitial (Some id) true) /\
      address (from email) = Some fa /\
      has_message_id (messageId email) (DB w) = false /\
      id = next_rowid (seq_processed_emails (DB w))
             (map ProcessedEmails.id (processed_emails (DB w))) /\
      w' = with_DB w
             (mkD1 (processed_emails (DB w) ++ [pending_entry id (clock w) email fa])
                (expenses (DB w)) (categories (DB w)) id (seq_expenses (DB w)))).
Proof.
  unfold recordInitialEmailProcessing, run_statement, insert_processed_email.
  destruct (address (from email)) as [fa|].
  - destruct (has_message_id (messageId email) (DB w)) eqn:H; intros E;
      inversion E; subst.
    + left. eexists. split; [reflexivity|]. destruct w; reflexivity.
    + right. do 2 eexists. repeat split; reflexivity.
  - intros E. inversion E; subst. left. eexists. split; [reflexivity|].
    destruct w; reflexivity.
Qed.

Lemma recordInitial_throws_keep (email : ParsedEmail) :
  throws_keep_store (recordInitialEmailProcessing email).
Proof.
  intros w e w' E.
  destruct (recordInitial_effect _ _ _ _ E) as [(e' & _ & ->)|(id & fa & R & _)].
  - apply same_store_refl.
  - discriminate R.
Qed.

(** Step 5 either throws and writes nothing, or appends one expense row,
    whose [is_reimbursable] is the default of the column. *)
Lemma insertExpense_effect (ai : Outcome Expense) (r0 : InitialEmailRecord)
      (w : World) (r : Outcome ExpenseInsertResult) (w' : World) :
  insertExpenseRecord ai r0 w = (r, w') ->
  (exists e, r = Threw e /\ w' = w) \/
  (exists res x,
      r = Ok res /\
      Expenses.is_reimbursable x = 0%Z /\
      emailRecordId r0 = Some (Expenses.email_id x) /\
      has_email_id (Expenses.email_id x) (DB w) = true /\
      w' = with_DB w
             (mkD1 (processed_emails (DB w)) (expenses (DB w) ++ [x])
                (categories (DB w)) (seq_processed_emails (DB w)) (Expenses.id x))).
Proof.
  unfold insertExpenseRecord, run_statement, insert_expense.
  assert (W : with_DB w (DB w) = w) by (destruct w; reflexivity).
  destruct ai as [aiData|e]; [|intros E; inversion E; eauto].
  destruct (emailRecordId r0) as [id|]; [|intros E; inversion E; eauto].
  destruct (missing (Some id)); [intros E; inversion E; eauto|].
  destruct (description aiData) as [d|];
    [|intros E; inversion E; subst; rewrite W; eauto].
  destruct (negb (Qle_bool (amountValue aiData) 0) &&
            (String.length (currencyCode aiData) =? 3)%nat);
    [|intros E; inversion E; subst; rewrite W; eauto].
  destruct (has_email_id id (DB w)) eqn:F; cbn [andb];
    [|intros E; inversion E; subst; rewrite W; eauto].
  destruct (has_category (category aiData) (DB w));
    intros E; inversion E; subst; [|rewrite W; eauto].
  right. eexists _, (Expenses.mkRow _ id _ _ _ _ _ _ 0 _ _).
  cbn [Expenses.is_reimbursable Expenses.email_id Expenses.id].
  split; [reflexivity|]. split; [reflexivity|]. split; [reflexivity|].
  split; [exact F | reflexivity].
Qed.

Lemma insertExpense_throws_keep (ai : Outcome Expense) (r0 : InitialEmailRecord) :
  throws_keep_store (insertExpenseRecord ai r0).
Proof.
  intros w e w' E.
  destruct (insertExpense_effect _ _ _ _ _ E) as [(e' & _ & ->)|(res & x & R & _)].
  - apply same_store_refl.
  - discriminate R.
Qed.

(** Step 6 never throws; it writes nothing, or sets the status and the
    time of the rows with the id it was given. *)
Lemma finalize_effect (r0 : InitialEmailRecord) (w : World)
      (r : Outcome FinalizeResult) (w' : World) :
  finalizeEmailProcessingStatus r0 w = (r, w') ->
  exists res,
    r = Ok res /\
    (w' = w \/
     exists id,
       emailRecordId r0 = Some id /\
       w' = with_DB w
              (mkD1 (map (set_status (clock w) "processed" id)
                       (processed_emails (DB w)))
                 (expenses (DB w)) (categories (DB w))
                 (seq_processed_emails (DB w)) (seq_expenses (DB w)))).
Proof.
  unfold finalizeEmailProcessingStatus, run_statement, update_processed_email_status.
  destruct (emailRecordId r0) as [id|]; [|intros E; inversion E; eauto].
  destruct (missing (Some id)); [intros E; inversion E; eauto|].
  cbn. intros E. inversion E; subst. eexists. split; [reflexivity|].
  right. exists id. split; reflexivity.
Qed.

Lemma finalize_throws_keep (r0 : InitialEmailRecord) :
  throws_keep_store (finalizeEmailProcessingStatus r0).
Proof.
  intros w e w' E. destruct (finalize_effect _ _ _ _ E) as (res & R & _).
  discriminate R.
Qed.

Lemma tail_effect_refl (db : D1) : tail_effect db db.
Proof.
  exists (fun e => e), []. repeat split.
  - now rewrite map_id.
  - now rewrite app_nil_r.
  - simpl. lia.
  - constructor.
Qed.

Lemma finalize_and_finish_effect (r0 : InitialEmailRecord) (w : World)
      (r : RunResult) (w' : World) :
  finalize_and_finish r0 w = (r, w') ->
  r = Completed /\
  exists f, keeps_identity f /\
            processed_emails (DB w') = map f (processed_emails (DB w)) /\
            expenses (DB w') = expenses (DB w) /\
            categories (DB w') = categories (DB w).
Proof.
  unfold finalize_and_finish.
  destruct (step_do _ _ _ w) as [o w1] eqn:S.
  destruct (step_do_last _ _ _ (finalize_throws_keep r0) _ _ _ S)
    as (w0 & [S0 S0c] & C0).
  destruct (finalize_effect _ _ _ _ C0) as (res & -> & [->|(id & _ & ->)]);
    intros E; inversion E; subst; (split; [reflexivity|]).
  - exists (fun e => e). rewrite S0, map_id. repeat split.
  - exists (set_status (clock w0) "processed" id).
    cbn [with_DB DB processed_emails expenses categories]. rewrite S0.
    repeat split; apply set_status_keeps.
Qed.

Lemma insert_and_finish_effect (ai : Outcome Expense) (r0 : InitialEmailRecord)
      (w : World) (r : RunResult) (w' : World) :
  insert_and_finish ai r0 w = (r, w') -> tail_effect (DB w) (DB w').
Proof.
  unfold insert_and_finish.
  destruct (step_do _ _ _ w) as [o w1] eqn:S.
  destruct (step_do_last _ _ _ (insertExpense_throws_keep ai r0) _ _ _ S)
    as (w0 & [S0 S0c] & C0).
  destruct (insertExpense_effect _ _ _ _ _ C0)
    as [(e & -> & ->)|(res & x & -> & Hx & _ & Hfk & ->)].
  - intros E. inversion E; subst. rewrite S0. apply tail_effect_refl.
  - intros E. destruct (finalize_and_finish_effect _ _ _ _ E)
      as (_ & f & Kf & Pf & Xf & Cf).
    cbn [with_DB DB processed_emails expenses categories] in Pf, Xf, Cf.
    rewrite S0 in Pf, Xf, Cf, Hfk.
    exists f, [x]. repeat split; try assumption; try apply Kf.
    + simpl. lia.
    + repeat constructor; assumption.
Qed.

Lemma run_after_record_effect (env : Env) (email : ParsedEmail)
      (r0 : InitialEmailRecord) (w : World) (r : RunResult) (w' : World) :
  run_after_record env email r0 w = (r, w') -> tail_effect (DB w) (DB w').
Proof.
  unfold run_after_record.
  destruct (step_do "extract text for AI" _ _ w) as [c w3] eqn:S3.
  destruct (step_do "send to AI for expense parsing" _ _ w3) as [a w4] eqn:S4.
  apply (step_do_keeps_store _ _ _ (extract_text_keeps env email)) in S3.
  apply (step_do_keeps_store _ _ _ (send_to_AI_keeps env c)) in S4.
  destruct S3 as [D3 _], S4 as [D4 _].
  intros E. apply insert_and_finish_effect in E. now rewrite D4, D3 in E.
Qed.

(** ** The first two steps, computed *)

Lemma parse_email_ok (env : Env) (email : list Byte.byte) (e : ParsedEmail) (w : World) :
  parses_to env email e ->
  step_do "parse email" defaultConfig (parse_email env email) w
  = (Ok e, log_attempt "parse email" w).
Proof.
  intros (p & Hp & He). unfold step_do, defaultConfig. cbn [retries_limit attempt].
  unfold parse_email. rewrite Hp. cbn [of_external]. rewrite He. reflexivity.
Qed.

Lemma record_ok (e : ParsedEmail) (fa : string) (w : World) :
  address (from e) = Some fa ->
  has_message_id (messageId e) (DB w) = false ->
  step_do "recordInitialEmailProcessing" defaultConfig
    (recordInitialEmailProcessing e) w
  = (Ok (mkInitial
           (Some (next_rowid (seq_processed_emails (DB w))
                    (map ProcessedEmails.id (processed_emails (DB w))))) true),
     after_record w
       (next_rowid (seq_processed_emails (DB w))
          (map ProcessedEmails.id (processed_emails (DB w)))) e fa).
Proof.
  intros Ha Hm. unfold step_do, defaultConfig. cbn [retries_limit attempt].
  unfold recordInitialEmailProcessing, run_statement, insert_processed_email.
  cbn [log_attempt DB clock]. rewrite Ha, Hm. reflexivity.
Qed.

Lemma record_duplicate (e : ParsedEmail) (fa : string) (w : World) :
  address (from e) = Some fa ->
  has_message_id (messageId e) (DB w) = true ->
  step_do "recordInitialEmailProcessing" defaultConfig
    (recordInitialEmailProcessing e) w
  = (Threw unique_violation,
     mkWorld (DB w) (clock w) (ai_calls w)
       (attempts w ++ ["recordInitialEmailProcessing"]
                   ++ ["recordInitialEmailProcessing"])).
Proof.
  intros Ha Hm. unfold step_do, defaultConfig. cbn [retries_limit attempt].
  unfold recordInitialEmailProcessing, run_statement, insert_processed_email.
  cbn [log_attempt DB clock with_DB ai_calls attempts]. rewrite Ha, Hm.
  cbn [attempt log_attempt DB clock with_DB ai_calls attempts]. rewrite Hm.
  unfold with_DB, log_attempt. cbn [DB clock ai_calls attempts].
  rewrite <- app_assoc. reflexivity.
Qed.

Lemma ledger_entries_none (m : string) (db : D1) :
  has_message_id m db = false -> ledger_entries m db = [].
Proof.
  unfold has_message_id, ledger_entries.
  induction (processed_emails db) as [|r l IH]; simpl; [reflexivity|].
  intros H. apply orb_false_iff in H. destruct H as [Hr Hl].
  rewrite Hr. exact (IH Hl).
Qed.

Lemma has_message_id_entries (m : string) (db : D1) :
  ledger_entries m db <> [] -> has_message_id m db = true.
Proof.
  intros N. destruct (has_message_id m db) eqn:H; [reflexivity|].
  now apply ledger_entries_none in H.
Qed.

Lemma filter_message_id_map (m : string) (f : ProcessedEmails.row -> ProcessedEmails.row)
      (l : list ProcessedEmails.row) :
  keeps_identity f ->
  filter (fun r => String.eqb (ProcessedEmails.message_id r) m) (map f l)
  = map f (filter (fun r => String.eqb (ProcessedEmails.message_id r) m) l).
Proof.
  intros K. induction l as [|r l IH]; simpl; [reflexivity|].
  destruct (K r) as (_ & -> & _).
  destruct (String.eqb (ProcessedEmails.message_id r) m); simpl; now rewrite IH.
Qed.

(** What [run] does to the database: nothing, when one of the first two
    steps fails; otherwise the pending row of step 2 followed by the
    effect of the later steps. *)
Lemma run_effect (env : Env) (email : list Byte.byte) (w : World)
      (r : RunResult) (w' : World) :
  run env email w = (r, w') ->
  DB w' = DB w \/
  exists e id fa,
    has_message_id (messageId e) (DB w) = false /\
    tail_effect
      (mkD1 (processed_emails (DB w) ++ [pending_entry id (clock w) e fa])
         (expenses (DB w)) (categories (DB w)) id (seq_expenses (DB w)))
      (DB w').
Proof.
  unfold run.
  destruct (step_do "parse email" _ _ w) as [[e|err] w1] eqn:S1.
  2:{ intros E. inversion E; subst. left.
      apply (step_do_keeps_store _ _ _ (parse_email_keeps env email)) in S1.
      apply S1. }
  apply (step_do_keeps_store _ _ _ (parse_email_keeps env email)) in S1.
  destruct S1 as [Dp Cp].
  destruct (step_do "recordInitialEmailProcessing" _ _ w1) as [r2 w2] eqn:S2.
  destruct (step_do_last _ _ _ (recordInitial_throws_keep e) _ _ _ S2)
    as (w0 & [D0 C0] & E0).
  destruct (recordInitial_effect _ _ _ _ E0)
    as [(err & -> & ->)|(id & fa & -> & _ & Hm & _ & ->)].
  - intros E. inversion E; subst. left. congruence.
  - intros E. apply run_after_record_effect in E. right. exists e, id, fa.
    cbn [with_DB DB] in E. rewrite D0, Dp in Hm. rewrite D0, C0, Dp, Cp in E.
    split; assumption.
Qed.

(** ** Reimbursable flags *)

(** C10. Whatever the run does, every ledger row of the database
    afterwards is a row that was there before, with the same
    [is_reimbursable], or has [is_reimbursable] 0 (the [false] bound by
    step 2); and every expense row afterwards was there before or has
    [is_reimbursable] 0 (the default of the column, which the INSERT does
    not name) and so the generated status [non_reimbursable]. *)
Theorem run_creates_nothing_reimbursable (env : Env) (email : list Byte.byte)
        (w : World) :
  (forall e', In e' (processed_emails (DB (snd (run env email w)))) ->
     (exists e, In e (processed_emails (DB w)) /\
                ProcessedEmails.id e' = ProcessedEmails.id e /\
                ProcessedEmails.message_id e' = ProcessedEmails.message_id e /\
                ProcessedEmails.is_reimbursable e' = ProcessedEmails.is_reimbursable e)
     \/ ProcessedEmails.is_reimbursable e' = 0%Z) /\
  (forall x, In x (expenses (DB (snd (run env email w)))) ->
     In x (expenses (DB w)) \/
     (Expenses.is_reimbursable x = 0%Z /\ Expenses.status x = "non_reimbursable")).
Proof.
  destruct (run env email w) as [r w'] eqn:R. cbn [snd].
  apply run_effect in R.
  destruct R as [->|(e & id & fa & _ & f & newx & K & P & X & _ & F & _)].
  - split.
    + intros e' H. left. exists e'. repeat split. exact H.
    + intros x H. now left.
  - cbn [processed_emails expenses] in P, X. split.
    + intros e' H. rewrite P in H. apply in_map_iff in H.
      destruct H as (e0 & <- & H0). destruct (K e0) as (Ki & Km & Kr).
      apply in_app_or in H0. destruct H0 as [H0|[<-|[]]].
      * left. exists e0. repeat split; assumption.
      * right. rewrite Kr. reflexivity.
    + intros x H. rewrite X in H. apply in_app_or in H. destruct H as [H|H].
      * now left.
      * right. rewrite Forall_forall in F. destruct (F x H) as [Fx _].
        split; [exact Fx|]. unfold Expenses.status. now rewrite Fx.
Qed.

(** ** A second delivery of the same message *)

(** C1, as stated, fails: the second run for the same message does not
    look anything up and does not continue; it ends at step 2 with the
    violation of the UNIQUE constraint, after the retry. *)
Lemma second_run_aborts :
  fst (run env_bob [] world0) = Completed /\
  fst (run env_bob [] (snd (run env_bob [] world0)))
    = Errored "recordInitialEmailProcessing" unique_violation /\
  attempts (snd (run env_bob [] (snd (run env_bob [] world0))))
    = attempts (snd (run env_bob [] world0))
      ++ ["parse email"; "recordInitialEmailProcessing";
          "recordInitialEmailProcessing"].
Proof. repeat split. Qed.

(** C1, amended. For a raw email that parses, has a sender address and a
    message id the ledger does not hold yet, two runs leave exactly one
    ledger row with that message id and at most one expense row more than
    before. The second run does not look the row up: its step 2 fails on
    the UNIQUE constraint at both attempts and the run ends there, with
    the database as the first run left it. *)
Theorem second_run_changes_nothing (env : Env) (email : list Byte.byte) (w : World)
        (e : ParsedEmail) (fa : string) :
  parses_to env email e ->
  address (from e) = Some fa ->
  has_message_id (messageId e) (DB w) = false ->
  List.length (ledger_entries (messageId e)
                 (DB (snd (run env email (snd (run env email w)))))) = 1%nat /\
  (exists newx,
      expenses (DB (snd (run env email (snd (run env email w)))))
        = expenses (DB w) ++ newx /\
      (List.length newx <= 1)%nat) /\
  fst (run env email (snd (run env email w)))
    = Errored "recordInitialEmailProcessing" unique_violation /\
  DB (snd (run env email (snd (run env email w)))) = DB (snd (run env email w)) /\
  attempts (snd (run env email (snd (run env email w))))
    = attempts (snd (run env email w))
      ++ ["parse email"; "recordInitialEmailProcessing";
          "recordInitialEmailProcessing"].
Proof.
  intros Hp Ha Hm.
  (* the first run *)
  assert (First : exists f newx,
             keeps_identity f /\
             processed_emails (DB (snd (run env email w)))
               = map f (processed_emails (DB w)
                        ++ [pending_entry
                              (next_rowid (seq_processed_emails (DB w))
                                 (map ProcessedEmails.id (processed_emails (DB w))))
                              (clock w) e fa]) /\
             expenses (DB (snd (run env email w))) = expenses (DB w) ++ newx /\
             (List.length newx <= 1)%nat).
  { destruct (run env email w) as [r1 w1] eqn:R. cbn [snd].
    unfold run in R. rewrite (parse_email_ok env email e w Hp) in R.
    rewrite (record_ok e fa (log_attempt "parse email" w) Ha Hm) in R.
    apply run_after_record_effect in R.
    unfold after_record, log_attempt in R.
    cbn [DB clock processed_emails expenses] in R.
    destruct R as (f & newx & K & P & X & L & _).
    cbn [DB clock processed_emails expenses] in P, X.
    exists f, newx. repeat split; assumption || apply K. }
  destruct First as (f & newx & K & P & X & L).
  assert (Entries : ledger_entries (messageId e) (DB (snd (run env email w)))
                    = [f (pending_entry
                            (next_rowid (seq_processed_emails (DB w))
                               (map ProcessedEmails.id (processed_emails (DB w))))
                            (clock w) e fa)]).
  { unfold ledger_entries. rewrite P, (filter_message_id_map _ _ _ K), filter_app.
    fold (ledger_entries (messageId e) (DB w)).
    rewrite (ledger_entries_none _ _ Hm). cbn.
    now rewrite String.eqb_refl. }
  assert (Dup : has_message_id (messageId e) (DB (snd (run env email w))) = true).
  { apply has_message_id_entries. rewrite Entries. discriminate. }
  (* the second run *)
  assert (Second : run env email (snd (run env email w))
                   = (Errored "recordInitialEmailProcessing" unique_violation,
                      mkWorld (DB (snd (run env email w)))
                        (clock (snd (run env email w)))
                        (ai_calls (snd (run env email w)))
                        (attempts (snd (run env email w))
                         ++ ["parse email"; "recordInitialEmailProcessing";
                             "recordInitialEmailProcessing"]))).
  { generalize dependent (snd (run env email w)). intros w1 _ _ _ Dup.
    unfold run. rewrite (parse_email_ok env email e w1 Hp).
    rewrite (record_duplicate e fa (log_attempt "parse email" w1) Ha Dup).
    unfold log_attempt. cbn [DB clock ai_calls attempts].
    rewrite <- app_assoc. reflexivity. }
  rewrite Second. cbn [fst snd DB attempts].
  rewrite Entries, X. repeat split. exists newx. split; [reflexivity | exact L].
Qed.

Lemma env_bob_parses : parses_to env_bob [] email_bob.
Proof. eexists. split; reflexivity. Qed.

Lemma second_run_changes_nothing_witness :
  parses_to env_bob [] email_bob /\
  address (from email_bob) = Some "shop@example.com" /\
  has_message_id (messageId email_bob) (DB world0) = false /\
  List.length (ledger_entries (messageId email_bob)
                 (DB (snd (run env_bob [] (snd (run env_bob [] world0)))))) = 1%nat /\
  (exists newx,
      expenses (DB (snd (run env_bob [] (snd (run env_bob [] world0)))))
        = expenses (DB world0) ++ newx /\
      (List.length newx <= 1)%nat) /\
  fst (run env_bob [] (snd (run env_bob [] world0)))
    = Errored "recordInitialEmailProcessing" unique_violation /\
  DB (snd (run env_bob [] (snd (run env_bob [] world0))))
    = DB (snd (run env_bob [] world0)) /\
  attempts (snd (run env_bob [] (snd (run env_bob [] world0))))
    = attempts (snd (run env_bob [] world0))
      ++ ["parse email"; "recordInitialEmailProcessing";
          "recordInitialEmailProcessing"].
Proof.
  split; [exact env_bob_parses|]. split; [reflexivity|]. split; [reflexivity|].
  apply (second_run_changes_nothing env_bob [] world0 email_bob "shop@example.com").
  - exact env_bob_parses.
  - reflexivity.
  - reflexivity.
Defined.

(** ** An answer without a currency code *)









(** ** The schema of the parsed email, further *)

Lemma required_inv {A} (path : list PathSeg) (message : string) (v : option A) (a : A) :
  required path message v = inr a -> v = Some a.
Proof. destruct v; simpl; intros H; inversion H; reflexivity. Qed.

Lemma Attachment_parse_inv (i : nat) (a : PostalAttachment) (a' : Attachment) :
  Attachment_parse i a = inr a' -> attachment_of a a'.
Proof.
  unfold Attachment_parse, attachment_of.
  destruct (required _ _ (pm_filename a)) as [|f] eqn:Ef; [discriminate|].
  destruct (required _ _ (pm_mimeType a)) as [|m] eqn:Em; [discriminate|].
  apply required_inv in Ef, Em.
  destruct (pm_content a) as [c|]; [|discriminate].
  intros H. inversion H; subst; simpl. repeat split; assumption.
Qed.

Lemma Attachments_parse_inv (l : list PostalAttachment) :
  forall i l', Attachments_parse i l = inr l' -> Forall2 attachment_of l l'.
Proof.
  induction l as [|a l IH]; intros i l'; simpl.
  - intros H. inversion H. constructor.
  - destruct (Attachment_parse i a) as [|a'] eqn:Ea; [discriminate|].
    destruct (Attachments_parse (S i) l) as [|rest] eqn:Er; [discriminate|].
    intros H. inversion H; subst. constructor.
    + exact (Attachment_parse_inv _ _ _ Ea).
    + exact (IH _ _ Er).
Qed.

(** X1. An email the schema accepts carries the message id, the subject
    and the sender postal-mime gave, the two bodies untouched, and the
    attachments of postal-mime one for one and in their order; without an
    [attachments] field it has no attachments. *)
Theorem ParsedEmailSchema_keeps_fields (p : PostalEmail) (e : ParsedEmail) :
  ParsedEmailSchema_parse p = inr e ->
  pm_messageId p = Some (messageId e) /\
  pm_subject p = Some (subject e) /\
  pm_from p = Some (from e) /\
  text e = pm_text p /\
  html e = pm_html p /\
  match pm_attachments p with
  | None => attachments e = []
  | Some l => Forall2 attachment_of l (attachments e)
  end.
Proof.
  unfold ParsedEmailSchema_parse.
  destruct (required _ _ (pm_messageId p)) as [|m] eqn:Em; [discriminate|].
  destruct (required _ _ (pm_subject p)) as [|s] eqn:Es; [discriminate|].
  destruct (required _ _ (pm_from p)) as [|f] eqn:Ef; [discriminate|].
  apply required_inv in Em, Es, Ef.
  destruct (pm_attachments p) as [l|].
  - destruct (Attachments_parse 0 l) as [|l'] eqn:El; [discriminate|].
    intros H. inversion H; subst; simpl. repeat split; try assumption.
    exact (Attachments_parse_inv _ _ _ El).
  - intros H. inversion H; subst; simpl. repeat split; assumption.
Qed.

Lemma ParsedEmailSchema_keeps_fields_witness :
  ParsedEmailSchema_parse postal_two_attachments = inr parsed_two_attachments /\
  pm_messageId postal_two_attachments = Some (messageId parsed_two_attachments) /\
  pm_subject postal_two_attachments = Some (subject parsed_two_attachments) /\
  pm_from postal_two_attachments = Some (from parsed_two_attachments) /\
  text parsed_two_attachments = pm_text postal_two_attachments /\
  html parsed_two_attachments = pm_html postal_two_attachments /\
  match pm_attachments postal_two_attachments with
  | None => attachments parsed_two_attachments = []
  | Some l => Forall2 attachment_of l (attachments parsed_two_attachments)
  end.
Proof.
  split; [reflexivity|].
  apply (ParsedEmailSchema_keeps_fields postal_two_attachments parsed_two_attachments).
  reflexivity.
Defined.

Lemma Attachments_parse_reports (l : list PostalAttachment) :
  forall k i a key,
    nth_error l i = Some a ->
    (key = "filename" /\ pm_filename a = None \/
     key = "mimeType" /\ pm_mimeType a = None) ->
    exists issues,
      Attachments_parse k l = inl issues /\
      In (mkIssue "invalid_type" [Key "attachments"; Index (k + i); Key key] "Required")
         issues.
Proof.
  induction l as [|b l IH]; intros k i a key Hn Hk; [destruct i; discriminate|].
  destruct i as [|i]; simpl in Hn.
  - inversion Hn; subst b. rewrite Nat.add_0_r. simpl.
    assert (Ha : exists issues,
               Attachment_parse k a = inl issues /\
               In (mkIssue "invalid_type" [Key "attachments"; Index k; Key key]
                     "Required") issues).
    { unfold Attachment_parse.
      destruct Hk as [[-> Hf]|[-> Hm]].
      - rewrite Hf. simpl.
        destruct (required _ _ (pm_mimeType a)), (pm_content a);
          eexists; (split; [reflexivity|]); now left.
      - rewrite Hm. simpl.
        destruct (required _ _ (pm_filename a)), (pm_content a); simpl;
          eexists; (split; [reflexivity|]);
          repeat (apply in_or_app; first [left; now left | right]); now left. }
    destruct Ha as (issues & -> & Hin).
    destruct (Attachments_parse (S k) l); eexists; (split; [reflexivity|]);
      apply in_or_app; now left.
  - destruct (IH (S k) i a key Hn Hk) as (issues & E & Hin).
    simpl. rewrite E. replace (k + S i)%nat with (S k + i)%nat by lia.
    destruct (Attachment_parse k b); eexists; (split; [reflexivity|]); cbn;
      try (apply in_or_app; right); exact Hin.
Qed.

(** X2. An email one of whose attachments has no file name, or no MIME
    type, is rejected as a whole, and the error names the field together
    with the position of the attachment. *)
Theorem unnamed_attachment_rejected (p : PostalEmail) (l : list PostalAttachment)
        (i : nat) (a : PostalAttachment) (key : string) :
  pm_attachments p = Some l ->
  nth_error l i = Some a ->
  (key = "filename" /\ pm_filename a = None \/
   key = "mimeType" /\ pm_mimeType a = None) ->
  exists issues,
    ParsedEmailSchema_parse p = inl issues /\
    In (mkIssue "invalid_type" [Key "attachments"; Index i; Key key] "Required") issues.
Proof.
  intros Hl Hn Hk. unfold ParsedEmailSchema_parse. rewrite Hl.
  destruct (Attachments_parse_reports l 0 i a key Hn Hk) as (issues & -> & Hin).
  simpl in Hin.
  destruct (required _ _ (pm_messageId p)), (required _ _ (pm_subject p)),
    (required _ _ (pm_from p)); simpl;
    eexists; (split; [reflexivity|]);
    repeat (apply in_or_app; right); exact Hin.
Qed.

Lemma unnamed_attachment_rejected_witness :
  exists issues,
    ParsedEmailSchema_parse postal_unnamed_attachment = inl issues /\
    In (mkIssue "invalid_type" [Key "attachments"; Index 1; Key "filename"] "Required")
       issues.
Proof.
  apply (unnamed_attachment_rejected postal_unnamed_attachment
           [ mkPostalAttachment (Some "logo.png") (Some "image/png") None None (Some []);
             mkPostalAttachment None (Some "application/pdf") None None (Some []) ]
           1 (mkPostalAttachment None (Some "application/pdf") None None (Some []))
           "filename").
  - reflexivity.
  - reflexivity.
  - left. split; reflexivity.
Defined.

(** ** The schema of the model's answer, further *)

Lemma ExpenseSchema_parse_field_issues (o : list (string * json)) :
  match ExpenseSchema_parse (JObject o) with
  | inl issues => issues = field_issues o
  | inr _ => field_issues o = []
  end.
Proof.
  unfold ExpenseSchema_parse, field_issues.
  destruct (Zod.string_ [Key "vendor"] _) as [l1|];
    destruct (Zod.string_regex _ _ _ _) as [l2|];
    destruct (Zod.number_ _ _) as [l3|];
    destruct (Zod.string_length_upper _ _ _) as [l4|];
    destruct (Zod.string_ [Key "category"] _) as [l5|];
    destruct (Zod.string_optional _ _) as [l6|];
    reflexivity.
Qed.

Lemma missing_in_field_issues (k : string) (o : list (string * json)) :
  In k required_keys ->
  get_property k o = None ->
  In (mkIssue "invalid_type" [Key k] "Required") (field_issues o).
Proof.
  unfold required_keys. intros Hk Hn.
  repeat (destruct Hk as [<-|Hk]; [|]); try contradiction;
    unfold field_issues; rewrite Hn;
    cbn [Zod.string_ Zod.string_regex Zod.number_ Zod.string_length_upper
         Zod.issues_of Zod.invalid_type];
    repeat first [apply in_or_app; left; now left | apply in_or_app; right].
Qed.

(** X3. When required fields are missing from the answer, validation
    fails and its error lists every one of them by name, together, each
    with the message [Required]. *)
Theorem missing_fields_all_reported (o : list (string * json)) (k0 : string) :
  In k0 required_keys ->
  get_property k0 o = None ->
  exists issues,
    ExpenseSchema_parse (JObject o) = inl issues /\
    forall k, In k required_keys -> get_property k o = None ->
              In (mkIssue "invalid_type" [Key k] "Required") issues.
Proof.
  intros Hk Hn. pose proof (ExpenseSchema_parse_field_issues o) as P.
  destruct (ExpenseSchema_parse (JObject o)) as [issues|e].
  - exists issues. split; [reflexivity|]. subst issues.
    intros k. apply missing_in_field_issues.
  - pose proof (missing_in_field_issues k0 o Hk Hn) as I. rewrite P in I.
    destruct I.
Qed.

Lemma missing_fields_all_reported_witness :
  exists issues,
    ExpenseSchema_parse (JObject answer_sparse) = inl issues /\
    forall k, In k required_keys -> get_property k answer_sparse = None ->
              In (mkIssue "invalid_type" [Key k] "Required") issues.
Proof.
  apply (missing_fields_all_reported answer_sparse "vendor").
  - left. reflexivity.
  - reflexivity.
Defined.

Lemma not_in_eqb (k : string) (l : list string) (k' : string) :
  ~ In k l -> In k' l -> String.eqb k' k = false.
Proof.
  intros N I. apply String.eqb_neq. intros ->. exact (N I).
Qed.

(** X4. Keys outside the shape of the schema play no part: setting such
    a key in the answer, to any value, changes nothing in the result of
    the validation. *)
Theorem unknown_keys_ignored (k : string) (v : json) (o : list (string * json)) :
  ~ In k shape_keys ->
  ExpenseSchema_parse (JObject (set_property k v o)) = ExpenseSchema_parse (JObject o).
Proof.
  intros N. unfold ExpenseSchema_parse.
  rewrite !(get_set_other k _ v o)
    by (apply (not_in_eqb k shape_keys); [exact N | unfold shape_keys; simpl; tauto]).
  reflexivity.
Qed.

Lemma unknown_keys_ignored_witness :
  ExpenseSchema_parse (JObject (set_property "confidence" (JBool true) answer_meals))
  = ExpenseSchema_parse (JObject answer_meals).
Proof.
  apply (unknown_keys_ignored "confidence" (JBool true) answer_meals).
  unfold shape_keys. simpl. intros H.
  repeat (destruct H as [H|H]; [discriminate H|]). exact H.
Defined.


Lemma upper_char_not_lower (c : ascii) : Js.is_lower (Js.upper_char c) = false.
Proof. destruct c as [[] [] [] [] [] [] [] []]; vm_compute; reflexivity. Qed.


Lemma toUpperCase_no_lower (s : string) :
  all_chars (fun c => negb (Js.is_lower c)) (Js.toUpperCase s) = true.
Proof.
  induction s as [|c s IH]; simpl; [reflexivity|].
  now rewrite upper_char_not_lower, IH.
Qed.




(** X6. What validation asks of an answer, in full: an object whose
    vendor is a string (the empty one included), whose date matches the
    pattern (calendar or not), whose amount is a number (of any sign),
    whose currency code is a string of three code units, whose category
    is a string, and whose description is a string or absent. Exactly
    these answers pass, and the parsed value carries the fields as given,
    the currency code upper-cased. *)
Theorem ExpenseSchema_accepts_exactly (response : json) (e : Expense) :
  ExpenseSchema_parse response = inr e <->
  exists o, response = JObject o /\ accepted o e.
Proof.
  split.
  - destruct response as [| | | | |o]; try discriminate.
    intros H. exists o. split; [reflexivity|].
    now apply ExpenseSchema_parse_accepted.
  - intros (o & -> & H). now apply ExpenseSchema_parse_accepted.
Qed.

Lemma ExpenseSchema_accepts_exactly_witness :
  ExpenseSchema_parse (JObject answer_odd) = inr expense_odd /\
  exists o, JObject answer_odd = JObject o /\ accepted o expense_odd.
Proof.
  split; [reflexivity|].
  apply (proj1 (ExpenseSchema_accepts_exactly (JObject answer_odd) expense_odd)).
  reflexivity.
Defined.

(** ** The run, case by case *)

Lemma parse_email_inv (env : Env) (email : list Byte.byte) (w : World)
      (e : ParsedEmail) (w' : World) :
  parse_email env email w = (Ok e, w') -> parses_to env email e.
Proof.
  unfold parse_email, parses_to, of_external.
  destruct (PostalMime_parse env email) as [msg|p]; [discriminate|].
  destruct (ParsedEmailSchema_parse p) as [|e'] eqn:E; [discriminate|].
  intros H. inversion H; subst. eauto.
Qed.

Lemma send_to_AI_inv (env : Env) (pc : Outcome ExtractedContent) (w : World)
      (aiData : Expense) (w' : World) :
  send_to_AI env pc w = (Ok aiData, w') ->
  exists response, ExpenseSchema_parse response = inr aiData.
Proof.
  unfold send_to_AI. destruct pc as [c|]; [|discriminate].
  destruct (of_external _) as [response|]; [|discriminate].
  destruct (ExpenseSchema_parse response) as [|a] eqn:E; [discriminate|].
  intros H. inversion H; subst. eauto.
Qed.

(** Step 5, exactly: it succeeds when the answer is there, the id is
    there and the table takes the row. *)
Lemma insertExpenseRecord_inv (ai : Outcome Expense) (r0 : InitialEmailRecord)
      (w : World) (res : ExpenseInsertResult) (w' : World) :
  insertExpenseRecord ai r0 w = (Ok res, w') ->
  exists aiData id d,
    ai = Ok aiData /\ emailRecordId r0 = Some id /\ id <> 0%Z /\
    storable aiData d (DB w) /\
    has_email_id id (DB w) = true /\
    w' = with_DB w
           (with_expense (DB w)
              (expense_row (next_expense_id (DB w)) id (clock w) aiData d)).
Proof.
  unfold insertExpenseRecord, run_statement, insert_expense, storable.
  destruct ai as [aiData|]; [|discriminate].
  destruct (emailRecordId r0) as [id|]; [|discriminate].
  unfold missing. destruct (id =? 0)%Z eqn:Z0; [discriminate|].
  destruct (description aiData) as [d|] eqn:Hd; [|discriminate].
  destruct (negb (Qle_bool (amountValue aiData) 0)) eqn:A; [|discriminate].
  destruct (String.length (currencyCode aiData) =? 3)%nat eqn:L; [|discriminate].
  cbn [andb].
  destruct (has_email_id id (DB w)) eqn:F; [|discriminate].
  destruct (has_category (category aiData) (DB w)) eqn:C; [|discriminate].
  cbn [andb]. intros H. inversion H; subst.
  exists aiData, id, d. apply Z.eqb_neq in Z0. apply Nat.eqb_eq in L.
  apply negb_true_iff in A. repeat split; assumption || reflexivity.
Qed.

Lemma insertExpenseRecord_stores (aiData : Expense) (r0 : InitialEmailRecord)
      (id : Z) (d : string) (w : World) :
  emailRecordId r0 = Some id -> id <> 0%Z ->
  storable aiData d (DB w) ->
  has_email_id id (DB w) = true ->
  insertExpenseRecord (Ok aiData) r0 w
  = (Ok (mkInsertResult true (Some (next_expense_id (DB w))) (Some 1%Z)),
     with_DB w
       (with_expense (DB w)
          (expense_row (next_expense_id (DB w)) id (clock w) aiData d))).
Proof.
  intros E N (Hd & Ha & Hl & Hc) F.
  unfold insertExpenseRecord, run_statement, insert_expense. rewrite E.
  unfold missing. apply Z.eqb_neq in N. rewrite N, Hd, Ha, Hl, F, Hc.
  reflexivity.
Qed.

Lemma has_email_id_recorded (db : D1) (id now : Z) (e : ParsedEmail) (fa : string) :
  has_email_id id (recorded db id now e fa) = true.
Proof.
  unfold has_email_id, recorded. cbn [processed_emails].
  rewrite existsb_app. cbn. rewrite Z.eqb_refl. now rewrite orb_true_r.
Qed.

(** What a run does, case by case. *)
Lemma run_cases (env : Env) (email : list Byte.byte) (w : World)
      (r : RunResult) (w' : World) :
  run env email w = (r, w') ->
  (exists err,
      (r = Errored "parse email" err \/
       r = Errored "recordInitialEmailProcessing" err) /\
      DB w' = DB w) \/
  (exists e fa,
      parses_to env email e /\
      address (from e) = Some fa /\
      has_message_id (messageId e) (DB w) = false /\
      ((exists err,
           r = Errored "insertExpenseRecord" err /\
           DB w' = recorded (DB w) (next_email_id (DB w)) (clock w) e fa) \/
       (exists response aiData d,
           ExpenseSchema_parse response = inr aiData /\
           storable aiData d (recorded (DB w) (next_email_id (DB w)) (clock w) e fa) /\
           r = Completed /\
           DB w' = marked_processed
                     (with_expense
                        (recorded (DB w) (next_email_id (DB w)) (clock w) e fa)
                        (expense_row (next_expense_id (DB w)) (next_email_id (DB w))
                           (clock w) aiData d))
                     (clock w) (next_email_id (DB w))))).
Proof.
  unfold run.
  destruct (step_do "parse email" _ _ w) as [[e|err] w1] eqn:S1.
  2:{ intros E. inversion E; subst. left. exists err. split; [now left|].
      apply (step_do_keeps_store _ _ _ (parse_email_keeps env email)) in S1.
      apply S1. }
  destruct (step_do_last _ _ _ (keeps_store_throws _ (parse_email_keeps env email))
              _ _ _ S1) as (wp & _ & Ep).
  apply parse_email_inv in Ep.
  apply (step_do_keeps_store _ _ _ (parse_email_keeps env email)) in S1.
  destruct S1 as [Dp Cp].
  destruct (step_do "recordInitialEmailProcessing" _ _ w1) as [r2 w2] eqn:S2.
  destruct (step_do_last _ _ _ (recordInitial_throws_keep e) _ _ _ S2)
    as (w0 & [D0 C0] & E0).
  destruct (recordInitial_effect _ _ _ _ E0)
    as [(err & -> & ->)|(id & fa & -> & Ha & Hm & Hid & ->)].
  { intros E. inversion E; subst. left. exists err. split; [now right | congruence]. }
  rewrite D0, Dp in Hm, Hid. fold (next_email_id (DB w)) in Hid. subst id.
  right. exists e, fa. split; [exact Ep|]. split; [exact Ha|]. split; [exact Hm|].
  revert H. unfold run_after_record.
  destruct (step_do "extract text for AI" _ _ _) as [c w3] eqn:S3.
  destruct (step_do "send to AI for expense parsing" _ _ w3) as [a w4] eqn:S4.
  pose proof (step_do_keeps_store _ _ _ (extract_text_keeps env e) _ _ _ S3) as [D3 C3].
  pose proof (step_do_keeps_store _ _ _ (send_to_AI_keeps env c) _ _ _ S4) as [D4 C4].
  cbn [with_DB DB clock] in D3, C3. rewrite D0, C0, Dp, Cp in D3.
  rewrite C0, Cp in C3.
  rewrite D3 in D4. rewrite C3 in C4.
  fold (recorded (DB w) (next_email_id (DB w)) (clock w) e fa) in D4.
  unfold insert_and_finish.
  destruct (step_do "insertExpenseRecord" _ _ w4) as [[res|err] w5] eqn:S5.
  2:{ intros E. inversion E; subst. left. exists err. split; [reflexivity|].
      destruct (step_do_last _ _ _ (insertExpense_throws_keep _ _) _ _ _ S5)
        as (wi & [Di Ci] & Ei).
      apply insertExpense_throws_keep in Ei. destruct Ei as [Ei _]. congruence. }
  destruct (step_do_last _ _ _ (insertExpense_throws_keep _ _) _ _ _ S5)
    as (wi & [Di Ci] & Ei).
  destruct (insertExpenseRecord_inv _ _ _ _ _ Ei)
    as (aiData & id & d & -> & Eid & Nid & St & _ & ->).
  cbn [emailRecordId] in Eid. inversion Eid; subst id.
  rewrite Di, D4 in St. rewrite Ci, C4, Di, D4.
  destruct (step_do_last _ _ _ (keeps_store_throws _ (send_to_AI_keeps env c))
              _ _ _ S4) as (wa & _ & Ea).
  apply send_to_AI_inv in Ea. destruct Ea as (response & Er).
  unfold finalize_and_finish.
  destruct (step_do "finalizeEmailProcessingStatus" _ _ _) as [rf wf] eqn:S6.
  destruct (step_do_last _ _ _ (finalize_throws_keep _) _ _ _ S6)
    as (w6 & [D6 C6] & E6).
  rewrite (finalize_present
             (mkInitial (Some (next_email_id (DB w))) true)
             (next_email_id (DB w)) w6 eq_refl Nid) in E6.
  inversion E6; subst.
  intros E. inversion E; subst. right. exists response, aiData, d.
  split; [exact Er|]. split; [exact St|]. split; [reflexivity|].
  cbn [with_DB DB clock] in D6, C6 |- *. rewrite D6, C6, Ci, C4. reflexivity.
Qed.

Lemma next_rowid_fresh (seq : Z) (ids : list Z) (i : Z) :
  In i ids -> (i < next_rowid seq ids)%Z.
Proof.
  unfold next_rowid. induction ids as [|j ids IH]; simpl; [contradiction|].
  intros [->|H]; [lia|]. specialize (IH H). lia.
Qed.

Lemma next_rowid_above_seq (seq : Z) (ids : list Z) : (seq < next_rowid seq ids)%Z.
Proof.
  unfold next_rowid. induction ids as [|j ids IH]; simpl; lia.
Qed.

Lemma set_status_old_rows (now id : Z) (status : string)
      (l : list ProcessedEmails.row) :
  (forall r, In r l -> (ProcessedEmails.id r < id)%Z) ->
  map (set_status now status id) l = l.
Proof.
  intros H. induction l as [|r l IH]; simpl; [reflexivity|].
  rewrite set_status_miss by (specialize (H r (or_introl eq_refl)); lia).
  rewrite IH; [reflexivity|]. intros r' Hr'. apply H. now right.
Qed.

Lemma older_than_next (db : D1) (r : ProcessedEmails.row) :
  In r (processed_emails db) -> (ProcessedEmails.id r < next_email_id db)%Z.
Proof.
  intros H. apply next_rowid_fresh. now apply in_map.
Qed.

(** The two tables after a run. *)
Lemma run_leaves_tables (env : Env) (email : list Byte.byte) (w : World) :
  run_tables env email w (fst (run env email w)) (DB (snd (run env email w))).
Proof.
  destruct (run env email w) as [r w'] eqn:R. cbn [fst snd].
  destruct (run_cases _ _ _ _ _ R)
    as [(err & Hr & ->)
       |(e & fa & Hp & Ha & Hm & [(err & -> & ->)|(resp & a & d & Hr & St & -> & ->)])].
  - destruct Hr as [->| ->]; constructor; auto.
  - eapply tables_pending; eauto.
  - eapply tables_processed; eauto.
    cbn [marked_processed with_expense recorded processed_emails].
    rewrite map_app, (set_status_old_rows _ _ _ _ (older_than_next (DB w))).
    cbn [map]. unfold set_status, pending_entry, processed_entry.
    cbn [ProcessedEmails.id ProcessedEmails.message_id ProcessedEmails.subject
         ProcessedEmails.from_address ProcessedEmails.received_at
         ProcessedEmails.is_reimbursable].
    now rewrite Z.eqb_refl.
Qed.





(** ** How a run ends *)




(** X9. A run that completes leaves the ledger with one more row, the
    last: it has the next id of the table, the message id, subject and
    sender of the email, status [processed] and [is_reimbursable] 0; the
    rows that were there are untouched. *)
Theorem completed_run_marks_processed (env : Env) (email : list Byte.byte) (w : World) :
  fst (run env email w) = Completed ->
  exists e fa,
    parses_to env email e /\
    address (from e) = Some fa /\
    processed_emails (DB (snd (run env email w)))
      = processed_emails (DB w)
        ++ [processed_entry (next_email_id (DB w)) (clock w) (clock w) e fa].
Proof.
  intros H. pose proof (run_leaves_tables env email w) as T. rewrite H in T.
  inversion T; subst. eauto.
Qed.

Lemma completed_run_marks_processed_witness :
  fst (run env_bob [] world0) = Completed /\
  exists e fa,
    parses_to env_bob [] e /\
    address (from e) = Some fa /\
    processed_emails (DB (snd (run env_bob [] world0)))
      = processed_emails (DB world0)
        ++ [processed_entry (next_email_id (DB world0)) (clock world0)
              (clock world0) e fa].
Proof.
  split; [reflexivity|].
  apply (completed_run_marks_processed env_bob [] world0). reflexivity.
Defined.

(** X10. A run that fails at the insert step, for whatever reason (the
    text extraction, the model, the validation or the table), leaves the
    ledger row it wrote at step 2 behind with status [pending], and no
    expense. *)
Theorem failed_run_leaves_pending (env : Env) (email : list Byte.byte) (w : World)
        (err : JsError) :
  fst (run env email w) = Errored "insertExpenseRecord" err ->
  exists e fa,
    parses_to env email e /\
    address (from e) = Some fa /\
    processed_emails (DB (snd (run env email w)))
      = processed_emails (DB w)
        ++ [pending_entry (next_email_id (DB w)) (clock w) e fa] /\
    expenses (DB (snd (run env email w))) = expenses (DB w).
Proof.
  intros H. pose proof (run_leaves_tables env email w) as T. rewrite H in T.
  inversion T; subst.
  - match goal with
    | D : _ \/ _ |- _ => destruct D; discriminate
    end.
  - eauto 8.
Qed.

Lemma failed_run_leaves_pending_witness :
  fst (run env_without_currency [] world0)
    = Errored "insertExpenseRecord" (ZodError [currencyCode_required]) /\
  exists e fa,
    parses_to env_without_currency [] e /\
    address (from e) = Some fa /\
    processed_emails (DB (snd (run env_without_currency [] world0)))
      = processed_emails (DB world0)
        ++ [pending_entry (next_email_id (DB world0)) (clock world0) e fa] /\
    expenses (DB (snd (run env_without_currency [] world0))) = expenses (DB world0).
Proof.
  split; [reflexivity|].
  apply (failed_run_leaves_pending env_without_currency [] world0
           (ZodError [currencyCode_required])).
  reflexivity.
Defined.

(** ** Constraints of the schema that a run keeps *)

(** The cases of [run_leaves_tables], with names. *)
Ltac run_tables_cases env email w :=
  let T := fresh "T" in
  pose proof (run_leaves_tables env email w) as T;
  inversion T as [step err db' Hstep P Q C Er Ed
                 |e fa err db' Hp Ha Hm P Q C Er Ed
                 |e fa resp a d db' Hp Ha Hm Hr St P Q C Er Ed];
  subst db'; clear T.











Lemma has_category_same (g : string) (db db' : D1) :
  categories db' = categories db -> has_category g db' = has_category g db.
Proof. unfold has_category. now intros ->. Qed.

(** X15. Every expense row a run adds is well formed: the amount is
    positive; the currency has three code units and no lower-case
    letter; the description is not NULL; the date reads YYYY-MM-DD; the
    category is one of the [categories] table; the vendor is not NULL;
    and [is_reimbursable] is 0. *)
Theorem run_adds_well_formed_expenses (env : Env) (email : list Byte.byte) (w : World)
        (x : Expenses.row) :
  In x (expenses (DB (snd (run env email w)))) ->
  In x (expenses (DB w)) \/
  well_formed_expense (DB (snd (run env email w))) x.
Proof.
  run_tables_cases env email w;
    intros Hx; rewrite Q in Hx; [now left | now left |].
  apply in_app_or in Hx. destruct Hx as [Hx|[<-|[]]]; [now left|]. right.
  destruct St as (Sd & Sa & Sl & Sc).
  pose proof (ExpenseSchema_parse_date _ _ Hr) as Hdate.
  destruct resp as [| | | | |o]; try discriminate.
  apply ExpenseSchema_parse_accepted in Hr.
  destruct Hr as (_ & _ & _ & _ & (c & _ & _ & Eu) & _).
  unfold well_formed_expense, expense_row; cbn.
  split; [exact Sa|].
  split; [exists (currencyCode a); repeat split;
          [exact Sl | rewrite Eu; apply toUpperCase_no_lower]|].
  split; [eauto|].
  split; [apply displayDate_formattedDate, Hdate|].
  split; [exists (category a); split;
          [reflexivity | now rewrite (has_category_same _ _ _ C)]|].
  split; [eauto | reflexivity].
Qed.

Lemma run_adds_well_formed_expenses_witness :
  exists x,
    In x (expenses (DB (snd (run env_bob [] world0)))) /\
    (In x (expenses (DB world0)) \/
     well_formed_expense (DB (snd (run env_bob [] world0))) x).
Proof.
  exists (expense_row 1 1 100 (mkExpense "Acme" "12-03-2024" (42 # 1)%Q "USD" "Meals"
                                 (Some "")) "").
  assert (I : In (expense_row 1 1 100
                    (mkExpense "Acme" "12-03-2024" (42 # 1)%Q "USD" "Meals" (Some "")) "")
                (expenses (DB (snd (run env_bob [] world0)))))
    by (left; reflexivity).
  split; [exact I|].
  apply (run_adds_well_formed_expenses env_bob [] world0 _ I).
Defined.

(** ** Runs that go through *)

Lemma send_to_AI_first_answer (env : Env) (c : ExtractedContent) (w : World)
      (response : json) (aiData : Expense) :
  AI_run env (ai_calls w) (build_request (contentForAi c)) = inr response ->
  ExpenseSchema_parse response = inr aiData ->
  step_do "send to AI for expense parsing" defaultConfig (send_to_AI env (Ok c)) w
  = (Ok aiData,
     mkWorld (DB w) (clock w) (S (ai_calls w))
       (attempts w ++ ["send to AI for expense parsing"])).
Proof.
  intros Ha Hp. unfold step_do, defaultConfig. cbn [retries_limit attempt].
  unfold send_to_AI, log_attempt. cbn [DB clock ai_calls attempts].
  rewrite Ha. cbn [of_external]. rewrite Hp. reflexivity.
Qed.

Lemma send_to_AI_second_answer (env : Env) (c : ExtractedContent) (w : World)
      (response : json) (aiData : Expense) :
  model_fails env (ai_calls w) (build_request (contentForAi c)) ->
  AI_run env (S (ai_calls w)) (build_request (contentForAi c)) = inr response ->
  ExpenseSchema_parse response = inr aiData ->
  step_do "send to AI for expense parsing" defaultConfig (send_to_AI env (Ok c)) w
  = (Ok aiData,
     mkWorld (DB w) (clock w) (S (S (ai_calls w)))
       (attempts w ++ ["send to AI for expense parsing"]
                   ++ ["send to AI for expense parsing"])).
Proof.
  intros Hf Ha Hp. unfold step_do, defaultConfig. cbn [retries_limit attempt].
  unfold send_to_AI, log_attempt. cbn [DB clock ai_calls attempts].
  destruct Hf as [(msg & E1)|(r1 & i1 & E1 & P1)]; rewrite E1; cbn [of_external];
    try rewrite P1; cbn [attempt DB clock ai_calls attempts];
    rewrite Ha; cbn [of_external]; rewrite Hp;
    rewrite <- app_assoc; reflexivity.
Qed.

(** Steps 5 and 6 on an answer the table takes. *)
Lemma insert_and_finish_stores (aiData : Expense) (d : string) (id : Z) (w : World) :
  id <> 0%Z ->
  storable aiData d (DB w) ->
  has_email_id id (DB w) = true ->
  insert_and_finish (Ok aiData) (mkInitial (Some id) true) w
  = (Completed,
     mkWorld
       (marked_processed
          (with_expense (DB w)
             (expense_row (next_expense_id (DB w)) id (clock w) aiData d))
          (clock w) id)
       (clock w) (ai_calls w)
       (attempts w ++ ["insertExpenseRecord"] ++ ["finalizeEmailProcessingStatus"])).
Proof.
  intros N St F. unfold insert_and_finish, step_do, defaultConfig.
  cbn [retries_limit attempt].
  rewrite (insertExpenseRecord_stores aiData (mkInitial (Some id) true) id d
             (log_attempt "insertExpenseRecord" w) eq_refl N St F).
  unfold finalize_and_finish, step_do, defaultConfig. cbn [retries_limit attempt].
  match goal with
  | |- context [finalizeEmailProcessingStatus ?r ?w6] =>
      rewrite (finalize_present r id w6 eq_refl N)
  end.
  unfold with_DB, log_attempt, marked_processed. cbn [DB clock ai_calls attempts].
  rewrite <- app_assoc. reflexivity.
Qed.

Lemma next_email_id_nonzero (db : D1) :
  (0 <= seq_processed_emails db)%Z -> next_email_id db <> 0%Z.
Proof.
  intros H. unfold next_email_id.
  pose proof (next_rowid_above_seq (seq_processed_emails db)
                (map ProcessedEmails.id (processed_emails db))).
  lia.
Qed.

(** A run whose first three steps go through, up to the model call. *)
Lemma run_up_to_model (env : Env) (email : list Byte.byte) (w : World)
      (e : ParsedEmail) (fa : string) (c : ExtractedContent) :
  parses_to env email e ->
  address (from e) = Some fa ->
  has_message_id (messageId e) (DB w) = false ->
  (forall w0, extract_text_for_AI env e w0 = (Ok c, w0)) ->
  run env email w
  = (let w3 := mkWorld (recorded (DB w) (next_email_id (DB w)) (clock w) e fa)
                 (clock w) (ai_calls w)
                 (attempts w ++ ["parse email"; "recordInitialEmailProcessing";
                                 "extract text for AI"]) in
     let (aiParsedExpense, w4) :=
       step_do "send to AI for expense parsing" defaultConfig
         (send_to_AI env (Ok c)) w3 in
     insert_and_finish aiParsedExpense
       (mkInitial (Some (next_email_id (DB w))) true) w4).
Proof.
  intros Hp Ha Hm Hc. unfold run.
  rewrite (parse_email_ok env email e w Hp).
  rewrite (record_ok e fa (log_attempt "parse email" w) Ha Hm).
  unfold run_after_record, step_do at 1, defaultConfig at 1.
  cbn [retries_limit attempt]. rewrite Hc.
  unfold after_record, log_attempt, recorded, next_email_id.
  cbn [DB clock ai_calls attempts]. rewrite <- !app_assoc. reflexivity.
Qed.

(** X16. When an email parses, has a sender and a new message id, its
    text is extracted, and the first answer of the model passes
    validation and is one the table takes, the run completes after one
    attempt of each of the six steps and one call of the model: the
    ledger has a new row with status [processed], and [expenses] a new
    row that refers to it and holds the fields of the answer, the date
    turned to YYYY-MM-DD. *)
Theorem accepted_answer_completes (env : Env) (email : list Byte.byte) (w : World)
        (e : ParsedEmail) (fa : string) (c : ExtractedContent) (response : json)
        (aiData : Expense) (d : string) :
  parses_to env email e ->
  address (from e) = Some fa ->
  has_message_id (messageId e) (DB w) = false ->
  (0 <= seq_processed_emails (DB w))%Z ->
  (forall w0, extract_text_for_AI env e w0 = (Ok c, w0)) ->
  AI_run env (ai_calls w) (build_request (contentForAi c)) = inr response ->
  ExpenseSchema_parse response = inr aiData ->
  storable aiData d (DB w) ->
  run env email w
  = (Completed,
     mkWorld (completed_db (DB w) (clock w) e fa aiData d) (clock w) (S (ai_calls w))
       (attempts w ++ ["parse email"; "recordInitialEmailProcessing";
                       "extract text for AI"; "send to AI for expense parsing";
                       "insertExpenseRecord"; "finalizeEmailProcessingStatus"])).
Proof.
  intros Hp Ha Hm Hs Hc Hr Hv St.
  rewrite (run_up_to_model env email w e fa c Hp Ha Hm Hc). cbv zeta.
  match goal with
  | |- context [step_do "send to AI for expense parsing" _ _ ?w3] =>
      rewrite (send_to_AI_first_answer env c w3 response aiData Hr Hv)
  end.
  cbn [DB clock ai_calls attempts].
  match goal with
  | |- context [insert_and_finish _ _ ?w4] =>
      rewrite (insert_and_finish_stores aiData d (next_email_id (DB w)) w4
                 (next_email_id_nonzero _ Hs) St (has_email_id_recorded _ _ _ _ _))
  end.
  cbn [DB clock ai_calls attempts]. unfold completed_db.
  rewrite <- !app_assoc. reflexivity.
Qed.

Lemma accepted_answer_completes_witness :
  run env_bob [] world0
  = (Completed,
     mkWorld (completed_db (DB world0) (clock world0) email_bob "shop@example.com"
                expense_meals "")
       (clock world0) (S (ai_calls world0))
       (attempts world0 ++ ["parse email"; "recordInitialEmailProcessing";
                            "extract text for AI"; "send to AI for expense parsing";
                            "insertExpenseRecord"; "finalizeEmailProcessingStatus"])).
Proof.
  apply (accepted_answer_completes env_bob [] world0 email_bob "shop@example.com"
           (mkContent "Invoice from Acme $42 USD" "body") (JObject answer_meals)
           expense_meals "").
  - exact env_bob_parses.
  - reflexivity.
  - reflexivity.
  - simpl. lia.
  - intros w0. reflexivity.
  - reflexivity.
  - reflexivity.
  - repeat split; reflexivity.
Defined.

(** X17. The retry of the model step recovers from one bad answer: when
    the first call of the model throws, or its answer fails validation,
    and the second answer passes and is one the table takes, the run
    completes all the same, after two calls of the model. *)
Theorem second_answer_completes (env : Env) (email : list Byte.byte) (w : World)
        (e : ParsedEmail) (fa : string) (c : ExtractedContent) (response : json)
        (aiData : Expense) (d : string) :
  parses_to env email e ->
  address (from e) = Some fa ->
  has_message_id (messageId e) (DB w) = false ->
  (0 <= seq_processed_emails (DB w))%Z ->
  (forall w0, extract_text_for_AI env e w0 = (Ok c, w0)) ->
  model_fails env (ai_calls w) (build_request (contentForAi c)) ->
  AI_run env (S (ai_calls w)) (build_request (contentForAi c)) = inr response ->
  ExpenseSchema_parse response = inr aiData ->
  storable aiData d (DB w) ->
  run env email w
  = (Completed,
     mkWorld (completed_db (DB w) (clock w) e fa aiData d) (clock w)
       (S (S (ai_calls w)))
       (attempts w ++ ["parse email"; "recordInitialEmailProcessing";
                       "extract text for AI"; "send to AI for expense parsing";
                       "send to AI for expense parsing";
                       "insertExpenseRecord"; "finalizeEmailProcessingStatus"])).
Proof.
  intros Hp Ha Hm Hs Hc Hf Hr Hv St.
  rewrite (run_up_to_model env email w e fa c Hp Ha Hm Hc). cbv zeta.
  match goal with
  | |- context [step_do "send to AI for expense parsing" _ _ ?w3] =>
      rewrite (send_to_AI_second_answer env c w3 response aiData Hf Hr Hv)
  end.
  cbn [DB clock ai_calls attempts].
  match goal with
  | |- context [insert_and_finish _ _ ?w4] =>
      rewrite (insert_and_finish_stores aiData d (next_email_id (DB w)) w4
                 (next_email_id_nonzero _ Hs) St (has_email_id_recorded _ _ _ _ _))
  end.
  cbn [DB clock ai_calls attempts]. unfold completed_db.
  rewrite <- !app_assoc. reflexivity.
Qed.

Lemma second_answer_completes_witness :
  model_fails env_second_try (ai_calls world0) (build_request "") /\
  run env_second_try [] world0
  = (Completed,
     mkWorld (completed_db (DB world0) (clock world0) email_empty "shop@example.com"
                expense_meals "")
       (clock world0) (S (S (ai_calls world0)))
       (attempts world0 ++ ["parse email"; "recordInitialEmailProcessing";
                            "extract text for AI"; "send to AI for expense parsing";
                            "send to AI for expense parsing";
                            "insertExpenseRecord"; "finalizeEmailProcessingStatus"])).
Proof.
  assert (F : model_fails env_second_try (ai_calls world0) (build_request ""))
    by (left; eexists; reflexivity).
  split; [exact F|].
  apply (second_answer_completes env_second_try [] world0 email_empty
           "shop@example.com" (mkContent "" "none") (JObject answer_meals)
           expense_meals "").
  - eexists. split; reflexivity.
  - reflexivity.
  - reflexivity.
  - simpl. lia.
  - intros w0. reflexivity.
  - exact F.
  - reflexivity.
  - reflexivity.
  - repeat split; reflexivity.
Defined.

(** X18. An email with no attachment and no body is not set aside: the
    model is called with the prompt built around the empty text, and if
    its answer passes validation and the table takes it, the run
    completes and stores an expense made of that answer. *)
Theorem empty_email_reaches_model (env : Env) (email : list Byte.byte) (w : World)
        (e : ParsedEmail) (fa : string) (response : json) (aiData : Expense)
        (d : string) :
  parses_to env email e ->
  address (from e) = Some fa ->
  has_message_id (messageId e) (DB w) = false ->
  (0 <= seq_processed_emails (DB w))%Z ->
  attachments e = [] ->
  Js.truthy (text e) = false ->
  Js.truthy (html e) = false ->
  AI_run env (ai_calls w) (build_request "") = inr response ->
  ExpenseSchema_parse response = inr aiData ->
  storable aiData d (DB w) ->
  fst (run env email w) = Completed /\
  ai_calls (snd (run env email w)) = S (ai_calls w) /\
  expenses (DB (snd (run env email w)))
    = expenses (DB w)
      ++ [expense_row (next_expense_id (DB w)) (next_email_id (DB w)) (clock w)
            aiData d].
Proof.
  intros Hp Ha Hm Hs Hat Ht Hh Hr Hv St.
  rewrite (run_up_to_model env email w e fa (mkContent "" "none") Hp Ha Hm
             (fun w0 => nothing_to_extract env e w0 Hat Ht Hh)).
  cbv zeta.
  match goal with
  | |- context [step_do "send to AI for expense parsing" _ _ ?w3] =>
      rewrite (send_to_AI_first_answer env (mkContent "" "none") w3 response aiData
                 Hr Hv)
  end.
  cbn [DB clock ai_calls attempts].
  match goal with
  | |- context [insert_and_finish _ _ ?w4] =>
      rewrite (insert_and_finish_stores aiData d (next_email_id (DB w)) w4
                 (next_email_id_nonzero _ Hs) St (has_email_id_recorded _ _ _ _ _))
  end.
  repeat split.
Qed.

Lemma empty_email_reaches_model_witness :
  attachments email_empty = [] /\
  Js.truthy (text email_empty) = false /\
  Js.truthy (html email_empty) = false /\
  fst (run env_empty_email [] world0) = Completed /\
  ai_calls (snd (run env_empty_email [] world0)) = S (ai_calls world0) /\
  expenses (DB (snd (run env_empty_email [] world0)))
    = expenses (DB world0)
      ++ [expense_row (next_expense_id (DB world0)) (next_email_id (DB world0))
            (clock world0) expense_meals ""].
Proof.
  split; [reflexivity|]. split; [reflexivity|]. split; [reflexivity|].
  apply (empty_email_reaches_model env_empty_email [] world0 email_empty
           "shop@example.com" (JObject answer_meals) expense_meals "").
  - eexists. split; reflexivity.
  - reflexivity.
  - reflexivity.
  - simpl. lia.
  - reflexivity.
  - reflexivity.
  - reflexivity.
  - reflexivity.
  - reflexivity.
  - repeat split; reflexivity.
Defined.

(** ** Runs that stop early *)

Lemma parse_email_unparsable (env : Env) (email : list Byte.byte) (w : World) :
  unparsable env email ->
  exists err,
    (forall m, err <> NonRetryableError m) /\
    parse_email env email w = (Threw err, w).
Proof.
  unfold parse_email.
  intros [(msg & ->)|(p & issues & -> & E)]; cbn [of_external]; [|rewrite E];
    eexists; (split; [|reflexivity]); discriminate.
Qed.

(** X19. An email that postal-mime cannot read, or that the schema
    rejects, stops the run at its first step: the step is attempted
    twice, nothing is written and the model is not called. *)
Theorem unparsable_email_stops_run (env : Env) (email : list Byte.byte) (w : World) :
  unparsable env email ->
  exists err,
    run env email w
    = (Errored "parse email" err,
       mkWorld (DB w) (clock w) (ai_calls w)
         (attempts w ++ ["parse email"] ++ ["parse email"])).
Proof.
  intros U. unfold run, step_do, defaultConfig. cbn [retries_limit attempt].
  destruct (parse_email_unparsable env email (log_attempt "parse email" w) U)
    as (err & N & E).
  rewrite E.
  destruct (parse_email_unparsable env email
              (log_attempt "parse email" (log_attempt "parse email" w)) U)
    as (err2 & N2 & E2).
  assert (err2 = err).
  { unfold parse_email in E, E2. inversion E. inversion E2. congruence. }
  subst err2. exists err.
  destruct err; try (exfalso; eapply N; reflexivity);
    cbn [attempt]; rewrite E2; unfold log_attempt; cbn [DB clock ai_calls attempts];
    rewrite <- app_assoc; reflexivity.
Qed.

Lemma unparsable_email_stops_run_witness :
  unparsable env_unnamed_attachment [] /\
  exists err,
    run env_unnamed_attachment [] world0
    = (Errored "parse email" err,
       mkWorld (DB world0) (clock world0) (ai_calls world0)
         (attempts world0 ++ ["parse email"] ++ ["parse email"])).
Proof.
  assert (U : unparsable env_unnamed_attachment [])
    by (right; do 2 eexists; split; reflexivity).
  split; [exact U|].
  apply (unparsable_email_stops_run env_unnamed_attachment [] world0 U).
Defined.

(** X20. An email without a sender address is not recorded: the INSERT
    of step 2 is refused at both attempts and the run ends there; no
    row is written and the model is not called. *)
Theorem email_without_sender_not_recorded (env : Env) (email : list Byte.byte)
        (w : World) (e : ParsedEmail) :
  parses_to env email e ->
  address (from e) = None ->
  exists message,
    run env email w
    = (Errored "recordInitialEmailProcessing" (D1Error message),
       mkWorld (DB w) (clock w) (ai_calls w)
         (attempts w ++ ["parse email"; "recordInitialEmailProcessing";
                         "recordInitialEmailProcessing"])).
Proof.
  intros Hp Ha. unfold run. rewrite (parse_email_ok env email e w Hp).
  unfold step_do, defaultConfig. cbn [retries_limit attempt].
  unfold recordInitialEmailProcessing, run_statement, insert_processed_email.
  rewrite Ha. cbn [attempt]. eexists.
  unfold with_DB, log_attempt. cbn [DB clock ai_calls attempts].
  rewrite <- !app_assoc. reflexivity.
Qed.

Lemma email_without_sender_not_recorded_witness :
  parses_to env_no_sender [] email_no_sender /\
  exists message,
    run env_no_sender [] world0
    = (Errored "recordInitialEmailProcessing" (D1Error message),
       mkWorld (DB world0) (clock world0) (ai_calls world0)
         (attempts world0 ++ ["parse email"; "recordInitialEmailProcessing";
                              "recordInitialEmailProcessing"])).
Proof.
  assert (P : parses_to env_no_sender [] email_no_sender)
    by (eexists; split; reflexivity).
  split; [exact P|].
  apply (email_without_sender_not_recorded env_no_sender [] world0 email_no_sender P).
  reflexivity.
Defined.

(** ** Calls of the model *)

Lemma attempt_calls_model {A} (step : string) (k : nat) (cb : Callback A) :
  calls_model_at_most k cb ->
  forall n, calls_model_at_most (S n * k) (attempt step n cb).
Proof.
  intros H n. induction n as [|n IH]; intros w r w'; cbn [attempt];
    destruct (cb (log_attempt step w)) as [[a|e] w1] eqn:C;
    pose proof (H _ _ _ C) as B; cbn [log_attempt ai_calls] in B.
  - intros E. inversion E; subst. lia.
  - destruct e; intros E; inversion E; subst; lia.
  - intros E. inversion E; subst. lia.
  - destruct e; intros E; try (inversion E; subst; lia);
      pose proof (IH _ _ _ E); lia.
Qed.

Lemma step_calls_model {A} (step : string) (k : nat) (cb : Callback A) :
  calls_model_at_most k cb ->
  calls_model_at_most (2 * k) (step_do step defaultConfig cb).
Proof. intros H. exact (attempt_calls_model step k cb H 1). Qed.

Lemma keeps_ai_calls_parse (env : Env) (email : list Byte.byte) :
  calls_model_at_most 0 (parse_email env email).
Proof. intros w r w' E. unfold parse_email in E. inversion E. lia. Qed.

Lemma keeps_ai_calls_record (e : ParsedEmail) :
  calls_model_at_most 0 (recordInitialEmailProcessing e).
Proof.
  intros w r w' E.
  destruct (recordInitial_effect _ _ _ _ E) as [(err & _ & ->)|(id & fa & _ & _ & _ & _ & ->)];
    cbn; lia.
Qed.

Lemma keeps_ai_calls_extract (env : Env) (e : ParsedEmail) :
  calls_model_at_most 0 (extract_text_for_AI env e).
Proof. intros w r w' E. unfold extract_text_for_AI in E. inversion E. lia. Qed.

Lemma send_to_AI_one_call (env : Env) (pc : Outcome ExtractedContent) :
  calls_model_at_most 1 (send_to_AI env pc).
Proof.
  intros w r w' E. unfold send_to_AI in E.
  destruct pc as [c|]; [|inversion E; lia].
  destruct (of_external _) as [response|];
    [destruct (ExpenseSchema_parse response)|]; inversion E; cbn; lia.
Qed.

Lemma keeps_ai_calls_insert (ai : Outcome Expense) (r0 : InitialEmailRecord) :
  calls_model_at_most 0 (insertExpenseRecord ai r0).
Proof.
  intros w r w' E.
  destruct (insertExpense_effect _ _ _ _ _ E)
    as [(err & _ & ->)|(res & x & _ & _ & _ & _ & ->)]; cbn; lia.
Qed.

Lemma keeps_ai_calls_finalize (r0 : InitialEmailRecord) :
  calls_model_at_most 0 (finalizeEmailProcessingStatus r0).
Proof.
  intros w r w' E.
  destruct (finalize_effect _ _ _ _ E) as (res & _ & [->|(id & _ & ->)]); cbn; lia.
Qed.

(** X21. A run calls the model at most twice, and not at all when it
    stops at one of its first two steps. *)
Theorem model_called_at_most_twice (env : Env) (email : list Byte.byte) (w : World) :
  (ai_calls w <= ai_calls (snd (run env email w)) <= ai_calls w + 2)%nat /\
  (forall step err,
      fst (run env email w) = Errored step err ->
      step <> "insertExpenseRecord" ->
      ai_calls (snd (run env email w)) = ai_calls w).
Proof.
  unfold run.
  destruct (step_do "parse email" _ _ w) as [[e|err] w1] eqn:S1;
    pose proof (step_calls_model _ _ _ (keeps_ai_calls_parse env email) _ _ _ S1) as B1.
  2:{ cbn [fst snd]. split; [lia|]. intros; lia. }
  destruct (step_do "recordInitialEmailProcessing" _ _ w1) as [[r0|err] w2] eqn:S2;
    pose proof (step_calls_model _ _ _ (keeps_ai_calls_record e) _ _ _ S2) as B2.
  2:{ cbn [fst snd]. split; [lia|]. intros; lia. }
  unfold run_after_record.
  destruct (step_do "extract text for AI" _ _ w2) as [c w3] eqn:S3.
  pose proof (step_calls_model _ _ _ (keeps_ai_calls_extract env e) _ _ _ S3) as B3.
  destruct (step_do "send to AI for expense parsing" _ _ w3) as [a w4] eqn:S4.
  pose proof (step_calls_model _ _ _ (send_to_AI_one_call env c) _ _ _ S4) as B4.
  unfold insert_and_finish.
  destruct (step_do "insertExpenseRecord" _ _ w4) as [[res|err] w5] eqn:S5;
    pose proof (step_calls_model _ _ _ (keeps_ai_calls_insert a r0) _ _ _ S5) as B5.
  2:{ cbn [fst snd]. split; [lia|]. intros step err' E N. inversion E; subst.
      contradiction. }
  unfold finalize_and_finish.
  destruct (step_do "finalizeEmailProcessingStatus" _ _ w5) as [[rf|err] w6] eqn:S6;
    pose proof (step_calls_model _ _ _ (keeps_ai_calls_finalize r0) _ _ _ S6) as B6;
    cbn [fst snd]; (split; [lia|]).
  - intros step err E. discriminate E.
  - intros step err' E N. inversion E; subst.
    destruct (step_do_last _ _ _ (finalize_throws_keep r0) _ _ _ S6)
      as (w0 & _ & E0).
    destruct (finalize_effect _ _ _ _ E0) as (res' & R & _). discriminate R.
Qed.

(** ** The redaction of clean text *)

Lemma replace_absent (p r s : string) :
  Js.includes p s = false -> Js.replace p r s = s.
Proof.
  induction s as [|c s IH]; simpl; intros H; apply orb_false_iff in H;
    destruct H as [H1 H2]; rewrite H1; [reflexivity|].
  now rewrite (IH H2).
Qed.

Lemma replaceAll_scan_absent (p r s : string) :
  Js.includes p s = false -> Js.replaceAll_scan p r 0 s = s.
Proof.
  induction s as [|c s IH]; [reflexivity|]. intros H.
  change (Js.starts_with p (String c s) || Js.includes p s = false) in H.
  apply orb_false_iff in H. destruct H as [H1 H2].
  cbn [Js.replaceAll_scan]. rewrite H1. now rewrite (IH H2).
Qed.

Lemma replaceAll_absent (p r s : string) :
  Js.includes p s = false -> Js.replaceAll p r s = s.
Proof.
  destruct p as [|a p].
  - destruct s; discriminate.
  - apply replaceAll_scan_absent.
Qed.

(** X22. A text in which none of the four configured literals occurs
    goes to the model as it is, from a PDF and from a body alike. *)
Theorem clean_text_unchanged (env : Env) (s : string) :
  free_of_literals env s ->
  redact_replace env s = s /\ redact_replaceAll env s = s.
Proof.
  intros (Hn & He & Ha & Hp). unfold redact_replace, redact_replaceAll.
  rewrite (replace_absent _ _ _ Hn), (replace_absent _ _ _ He),
    (replace_absent _ _ _ Ha), (replace_absent _ _ _ Hp).
  rewrite (replaceAll_absent _ _ _ Hn), (replaceAll_absent _ _ _ He),
    (replaceAll_absent _ _ _ Ha), (replaceAll_absent _ _ _ Hp).
  split; reflexivity.
Qed.

Lemma clean_text_unchanged_witness :
  free_of_literals env_bob "Invoice from Acme $42 USD" /\
  redact_replace env_bob "Invoice from Acme $42 USD" = "Invoice from Acme $42 USD" /\
  redact_replaceAll env_bob "Invoice from Acme $42 USD" = "Invoice from Acme $42 USD".
Proof.
  assert (F : free_of_literals env_bob "Invoice from Acme $42 USD")
    by (repeat split; reflexivity).
  split; [exact F|].
  apply (clean_text_unchanged env_bob "Invoice from Acme $42 USD" F).
Defined.

(** ** What the tables refuse *)

Lemma insert_refused (aiData : Expense) (id : Z) (message : string) (w : World) :
  id <> 0%Z ->
  (forall w0, DB w0 = DB w ->
     insertExpenseRecord (Ok aiData) (mkInitial (Some id) true) w0
     = (Threw (D1Error message), w0)) ->
  insert_and_finish (Ok aiData) (mkInitial (Some id) true) w
  = (Errored "insertExpenseRecord" (D1Error message),
     mkWorld (DB w) (clock w) (ai_calls w)
       (attempts w ++ ["insertExpenseRecord"] ++ ["insertExpenseRecord"])).
Proof.
  intros N H. unfold insert_and_finish, step_do, defaultConfig.
  cbn [retries_limit attempt].
  rewrite (H (log_attempt "insertExpenseRecord" w) eq_refl). cbn [attempt].
  rewrite (H (log_attempt "insertExpenseRecord"
                (log_attempt "insertExpenseRecord" w)) eq_refl).
  unfold log_attempt. cbn [DB clock ai_calls attempts].
  rewrite <- app_assoc. reflexivity.
Qed.

(** X23. The validation lets any number through as amount; the table
    does not: with an amount that is zero or negative the INSERT of
    step 5 fails on the CHECK at both attempts, the run ends there and no
    row is written. *)
Theorem nonpositive_amount_not_stored (aiData : Expense) (d : string) (id : Z)
        (w : World) :
  id <> 0%Z ->
  description aiData = Some d ->
  Qle_bool (amountValue aiData) 0 = true ->
  insert_and_finish (Ok aiData) (mkInitial (Some id) true) w
  = (Errored "insertExpenseRecord" (D1Error "CHECK constraint failed"),
     mkWorld (DB w) (clock w) (ai_calls w)
       (attempts w ++ ["insertExpenseRecord"] ++ ["insertExpenseRecord"])).
Proof.
  intros N Hd Ha. apply insert_refused; [exact N|]. intros w0 _.
  unfold insertExpenseRecord, run_statement, insert_expense.
  cbn [emailRecordId]. unfold missing. apply Z.eqb_neq in N. rewrite N, Hd, Ha.
  cbn [negb andb]. destruct w0; reflexivity.
Qed.

Lemma nonpositive_amount_not_stored_witness :
  ExpenseSchema_parse (JObject answer_odd) = inr expense_odd /\
  insert_and_finish (Ok expense_odd) (mkInitial (Some 1%Z) true) world_with_pending
  = (Errored "insertExpenseRecord" (D1Error "CHECK constraint failed"),
     mkWorld (DB world_with_pending) (clock world_with_pending)
       (ai_calls world_with_pending)
       (attempts world_with_pending
        ++ ["insertExpenseRecord"] ++ ["insertExpenseRecord"])).
Proof.
  split; [reflexivity|].
  apply (nonpositive_amount_not_stored expense_odd "refund" 1%Z world_with_pending).
  - discriminate.
  - reflexivity.
  - reflexivity.
Defined.

(** X24. A category that is not in the [categories] table is not stored:
    the INSERT of step 5 is refused at both attempts, the run ends there
    and no row is written. *)
Theorem unknown_category_not_stored (aiData : Expense) (id : Z) (w : World) :
  id <> 0%Z ->
  has_category (category aiData) (DB w) = false ->
  exists message,
    insert_and_finish (Ok aiData) (mkInitial (Some id) true) w
    = (Errored "insertExpenseRecord" (D1Error message),
       mkWorld (DB w) (clock w) (ai_calls w)
         (attempts w ++ ["insertExpenseRecord"] ++ ["insertExpenseRecord"])).
Proof.
  intros N Hc.
  assert (R : exists message, forall w0, DB w0 = DB w ->
              insertExpenseRecord (Ok aiData) (mkInitial (Some id) true) w0
              = (Threw (D1Error message), w0)).
  { unfold insertExpenseRecord, run_statement, insert_expense.
    cbn [emailRecordId]. unfold missing. apply Z.eqb_neq in N. rewrite N.
    destruct (description aiData) as [d|];
      [|eexists; intros [] _; reflexivity].
    destruct (negb (Qle_bool (amountValue aiData) 0) &&
              (String.length (currencyCode aiData) =? 3)%nat);
      [|eexists; intros [] _; reflexivity].
    eexists. intros [db0 c0 a0 t0] E. cbn [DB] in E. subst db0.
    cbn [DB clock with_DB]. rewrite Hc, andb_false_r. reflexivity. }
  destruct R as (message & R). exists message. apply insert_refused; assumption.
Qed.

Lemma unknown_category_not_stored_witness :
  has_category (category expense_unlisted) (DB world_with_pending) = false /\
  exists message,
    insert_and_finish (Ok expense_unlisted) (mkInitial (Some 1%Z) true)
      world_with_pending
    = (Errored "insertExpenseRecord" (D1Error message),
       mkWorld (DB world_with_pending) (clock world_with_pending)
         (ai_calls world_with_pending)
         (attempts world_with_pending
          ++ ["insertExpenseRecord"] ++ ["insertExpenseRecord"])).
Proof.
  split; [reflexivity|].
  apply (unknown_category_not_stored expense_unlisted 1%Z world_with_pending).
  - discriminate.
  - reflexivity.
Defined.

(** X25. Every category offered to the model can be stored: in a
    database that holds the seeded categories, each label of
    [validCategories] satisfies the foreign key of [expenses.category],
    in whatever letter case the model writes it. *)
Theorem listed_categories_storable (db : D1) (g g' : string) :
  categories db = seeded_categories ->
  In g validCategories ->
  nocase_eqb g g' = true ->
  has_category g' db = true.
Proof.
  unfold has_category. intros -> Hg Hc.
  unfold validCategories in Hg.
  repeat (destruct Hg as [<-|Hg];
          [cbn [seeded_categories existsb Categories.name]; rewrite Hc;
           repeat rewrite orb_true_r; reflexivity|]).
  destruct Hg.
Qed.

Lemma listed_categories_storable_witness :
  has_category "OFFICE supplies" fresh_db = true.
Proof.
  apply (listed_categories_storable fresh_db "Office Supplies" "OFFICE supplies").
  - reflexivity.
  - right. right. left. reflexivity.
  - reflexivity.
Defined.

(** ** The prompt *)

Lemma includes_skip (p s : string) (c : ascii) :
  Js.includes p s = true -> Js.includes p (String c s) = true.
Proof. intros H. cbn [Js.includes]. rewrite H. apply orb_true_r. Qed.

Lemma includes_starts (p s : string) :
  Js.starts_with p s = true -> Js.includes p s = true.
Proof. intros H. destruct s; cbn [Js.includes]; rewrite H; reflexivity. Qed.

Lemma starts_with_append (p t : string) : Js.starts_with p (p ++ t) = true.
Proof.
  induction p as [|a p IH]; [reflexivity|]. cbn. now rewrite Ascii.eqb_refl, IH.
Qed.

Lemma starts_with_self (p : string) : Js.starts_with p p = true.
Proof.
  induction p as [|a p IH]; [reflexivity|]. cbn. now rewrite Ascii.eqb_refl, IH.
Qed.

Lemma starts_with_longer (p s t : string) :
  Js.starts_with p s = true -> Js.starts_with p (s ++ t) = true.
Proof.
  revert s. induction p as [|a p IH]; intros s; [reflexivity|].
  destruct s as [|b s]; [discriminate|]. cbn. intros H.
  apply andb_true_iff in H. destruct H as [-> H]. exact (IH _ H).
Qed.

Lemma includes_append_right (p a t : string) :
  Js.includes p t = true -> Js.includes p (a ++ t) = true.
Proof.
  intros H. induction a as [|c a IH]; [exact H|]. apply includes_skip, IH.
Qed.

Lemma includes_append_left (p s t : string) :
  Js.includes p s = true -> Js.includes p (s ++ t) = true.
Proof.
  induction s as [|c s IH]; cbn [Js.includes]; intros H.
  - rewrite orb_false_r in H. apply includes_starts.
    destruct p; [reflexivity | discriminate].
  - apply orb_true_iff in H. destruct H as [H|H].
    + apply includes_starts.
      exact (starts_with_longer p (String c s) t H).
    + change (String c s ++ t)%string with (String c (s ++ t)).
      apply includes_skip, IH, H.
Qed.

Lemma includes_join_head (p sep x : string) (rest : list string) :
  Js.includes p x = true -> Js.includes p (Js.join sep (x :: rest)) = true.
Proof.
  intros H. destruct rest as [|y rest]; [exact H|].
  change (Js.join sep (x :: y :: rest))
    with (x ++ (sep ++ Js.join sep (y :: rest)))%string.
  apply includes_append_left, H.
Qed.

Lemma includes_join_tail (p sep x : string) (rest : list string) :
  Js.includes p (Js.join sep rest) = true ->
  Js.includes p (Js.join sep (x :: rest)) = true.
Proof.
  intros H. destruct rest as [|y rest].
  - cbn in H. destruct p; discriminate || (cbn; destruct x; reflexivity).
  - change (Js.join sep (x :: y :: rest))
      with (x ++ (sep ++ Js.join sep (y :: rest)))%string.
    apply includes_append_right, includes_append_right, H.
Qed.

(** X26. The prompt sent to the model contains the extracted text,
    whatever it is, and each of the eight category labels. *)
Theorem prompt_carries_text_and_labels (contentForAi : string) :
  Js.includes contentForAi (prompt (build_request contentForAi)) = true /\
  (forall g, In g validCategories ->
             Js.includes g (prompt (build_request contentForAi)) = true).
Proof.
  unfold build_request, prompt, build_prompt, lines. split.
  - do 9 apply includes_join_tail. apply includes_join_head.
    apply includes_append_right, includes_starts, starts_with_self.
  - intros g Hg. do 6 apply includes_join_tail. apply includes_join_head.
    unfold validCategories in Hg.
    repeat (destruct Hg as [<-|Hg]; [reflexivity|]). destruct Hg.
Qed.

(** ** The handler before the workflow, and the workflow *)

Lemma legacy_scan_no_pdf (env : Env) (c : string) (l : list Attachment) :
  forallb (fun a => negb (is_pdf a)) l = true ->
  legacy_scan env c l = Ok c.
Proof.
  induction l as [|a l IH]; simpl; [reflexivity|].
  intros H. apply andb_true_iff in H. destruct H as [Ha Hl].
  unfold is_pdf in Ha. apply negb_true_iff in Ha. rewrite Ha. exact (IH Hl).
Qed.

Lemma legacy_scan_reads_on (env : Env) (before rest : list Attachment) :
  Forall (fun b => is_pdf b = true ->
                   exists t, unpdf_extractText env (content b) = inr t) before ->
  forall c, exists c', legacy_scan env c (before ++ rest) = legacy_scan env c' rest.
Proof.
  induction 1 as [|b before Hb _ IH]; intros c; simpl; [eauto|].
  unfold is_pdf in Hb.
  destruct (String.eqb (mimeType b) "application/pdf"); [|apply IH].
  destruct (Hb eq_refl) as (t & Ht). rewrite Ht. cbn [of_external]. apply IH.
Qed.

(** X27. The handler of the first version keeps the text of the last
    PDF among the attachments, where the workflow keeps the first: when
    unpdf reads the PDFs before it, the content is the redacted text of
    the last PDF. *)
Theorem legacy_last_pdf_wins (env : Env) (before after : list Attachment)
        (a : Attachment) (pdf_text : string) :
  Forall (fun b => is_pdf b = true ->
                   exists t, unpdf_extractText env (content b) = inr t) before ->
  is_pdf a = true ->
  unpdf_extractText env (content a) = inr pdf_text ->
  forallb (fun b => negb (is_pdf b)) after = true ->
  legacy_contentForAi env (before ++ a :: after) = Ok (redact_replace env pdf_text).
Proof.
  intros Hb Ha Ht Hl. unfold legacy_contentForAi.
  replace (List.length (before ++ a :: after) =? 0)%nat with false
    by (symmetry; apply Nat.eqb_neq; rewrite length_app; simpl; lia).
  cbn [negb].
  destruct (legacy_scan_reads_on env before (a :: after) Hb "") as (c' & ->).
  cbn [legacy_scan]. unfold is_pdf in Ha. rewrite Ha, Ht. cbn [of_external].
  apply legacy_scan_no_pdf, Hl.
Qed.

Lemma legacy_last_pdf_wins_witness :
  legacy_contentForAi env_two_pdfs two_pdfs = Ok "Receipt for Payee Name" /\
  scan_attachments env_two_pdfs two_pdfs = Ok "Invoice for Payee Name".
Proof.
  split; [|reflexivity].
  apply (legacy_last_pdf_wins env_two_pdfs
           [ mkAttachment "invoice.pdf" "application/pdf" None None [Byte.x31];
             mkAttachment "logo.png" "image/png" None None [] ]
           []
           (mkAttachment "receipt.pdf" "application/pdf" None None [Byte.x32])
           "Receipt for Bob").
  - constructor; [intros _; eexists; reflexivity|].
    constructor; [discriminate | constructor].
  - reflexivity.
  - reflexivity.
  - reflexivity.
Defined.

(** X28. With exactly one PDF among the attachments, the handler of the
    first version and step 3 of the workflow come to the same: the same
    text, or the same failure of unpdf. *)
Theorem single_pdf_same_content (env : Env) (before after : list Attachment)
        (a : Attachment) (email : ParsedEmail) (w : World) :
  attachments email = before ++ a :: after ->
  forallb (fun b => negb (is_pdf b)) before = true ->
  is_pdf a = true ->
  forallb (fun b => negb (is_pdf b)) after = true ->
  extract_text_for_AI env email w
  = (match legacy_contentForAi env (attachments email) with
     | Ok s => Ok (mkContent s "attachment")
     | Threw err => Threw err
     end, w).
Proof.
  intros E Hb Ha Hl. unfold extract_text_for_AI, legacy_contentForAi. rewrite E.
  replace (List.length (before ++ a :: after) =? 0)%nat with false
    by (symmetry; apply Nat.eqb_neq; rewrite length_app; simpl; lia).
  replace (0 <? List.length (before ++ a :: after))%nat with true
    by (symmetry; apply Nat.ltb_lt; rewrite length_app; simpl; lia).
  cbn [negb].
  assert (S : scan_attachments env (before ++ a :: after)
              = legacy_scan env "" (before ++ a :: after)).
  { clear E. induction before as [|b before IH]; simpl.
    - unfold is_pdf in Ha. rewrite Ha.
      destruct (of_external (unpdf_extractText env (content a))); [|reflexivity].
      symmetry. apply legacy_scan_no_pdf, Hl.
    - simpl in Hb. apply andb_true_iff in Hb. destruct Hb as [Hb Hbs].
      unfold is_pdf in Hb. apply negb_true_iff in Hb. rewrite Hb. exact (IH Hbs). }
  rewrite S. destruct (legacy_scan env "" (before ++ a :: after)); reflexivity.
Qed.

Lemma single_pdf_same_content_witness :
  extract_text_for_AI env_bob (email_with None [logo_png; receipt_pdf]) world0
  = (match legacy_contentForAi env_bob
             (attachments (email_with None [logo_png; receipt_pdf])) with
     | Ok s => Ok (mkContent s "attachment")
     | Threw err => Threw err
     end, world0).
Proof.
  apply (single_pdf_same_content env_bob [logo_png] [] receipt_pdf
           (email_with None [logo_png; receipt_pdf]) world0); reflexivity.
Defined.

(** ** The date without the pattern *)

Lemma rev_string_twice (s a b : string) :
  Js.rev_string b (Js.rev_string a s) = Js.rev_string (s ++ b) a.
Proof.
  revert a b. induction s as [|c s IH]; intros a b; [reflexivity|].
  cbn [Js.rev_string]. rewrite IH. reflexivity.
Qed.

Lemma append_empty (s : string) : (s ++ "")%string = s.
Proof. induction s as [|c s IH]; simpl; congruence. Qed.

Lemma split_scan_dashless (a cur s : string) :
  dashless a = true ->
  Js.split_scan "-" cur (a ++ s) = Js.split_scan "-" (Js.rev_string cur a) s.
Proof.
  revert cur. induction a as [|c a IH]; intros cur H; [reflexivity|].
  cbn in H. apply andb_true_iff in H. destruct H as [Hc Ha].
  apply negb_true_iff in Hc. cbn. rewrite Hc. exact (IH _ Ha).
Qed.

Lemma split_piece (a rest : string) :
  dashless a = true ->
  Js.split "-" (a ++ String "-" rest) = a :: Js.split "-" rest.
Proof.
  intros H. unfold Js.split. rewrite (split_scan_dashless a "" _ H).
  cbn. rewrite rev_string_twice. cbn. now rewrite append_empty.
Qed.

Lemma split_last (a : string) :
  dashless a = true -> Js.split "-" a = [a].
Proof.
  intros H. unfold Js.split.
  rewrite <- (append_empty a) at 1. rewrite (split_scan_dashless a "" _ H).
  cbn. rewrite rev_string_twice. cbn. now rewrite append_empty.
Qed.

(** X29. What the reformatting does on its own, without the pattern in
    front of it: it swaps the first and the third of the pieces between
    dashes, a fourth piece and what follows is dropped, and a string
    without a dash comes out behind two [undefined]. *)
Theorem formattedDate_reads_three_pieces (a b c rest : string) :
  dashless a = true -> dashless b = true -> dashless c = true ->
  formattedDate (a ++ String "-" (b ++ String "-" c))
    = (c ++ "-" ++ b ++ "-" ++ a)%string /\
  formattedDate (a ++ String "-" (b ++ String "-" (c ++ String "-" rest)))
    = (c ++ "-" ++ b ++ "-" ++ a)%string /\
  formattedDate a = ("undefined-undefined-" ++ a)%string.
Proof.
  intros Ha Hb Hc. unfold formattedDate.
  rewrite (split_piece a _ Ha), (split_piece b c Hb), (split_last c Hc).
  rewrite (split_piece a _ Ha), (split_piece b _ Hb), (split_piece c rest Hc).
  rewrite (split_last a Ha).
  destruct (Js.split "-" rest); repeat split.
Qed.

Lemma formattedDate_reads_three_pieces_witness :
  formattedDate ("12" ++ String "-" ("03" ++ String "-" "2024"))
    = ("2024" ++ "-" ++ "03" ++ "-" ++ "12")%string /\
  formattedDate ("12" ++ String "-" ("03" ++ String "-" ("2024" ++ String "-" "x-y")))
    = ("2024" ++ "-" ++ "03" ++ "-" ++ "12")%string /\
  formattedDate "12" = ("undefined-undefined-" ++ "12")%string.
Proof.
  apply (formattedDate_reads_three_pieces "12" "03" "2024" "x-y"); reflexivity.
Defined.
